(** * ComfyUIClient: the transport adapter and the completion correlator

    A shallow embedding of [src/client.ts] (class [ComfyUIClient]) and of the
    sibling revision of the same class that routes its REST calls through a
    private [fetch] helper (module [Part000] below).

    The embedding follows the branch of [connect] taken when a global
    [window] exists: there the client multiplexes the socket's events through
    its own [handlers] registry and installs the [on]/[off] methods itself.
    Logging calls ([logger.info], [logger.debug], [console.error]) have no
    effect on the client and are left out, but for the template literal of
    line 481, whose conversion of the logged value can raise. *)

From Stdlib Require Import Floats.SpecFloat.
From stdpp Require Import base decidable option list strings.

Set Default Proof Using "Type".
Local Open Scope string_scope.

(** ** JavaScript values *)

(** What [JSON.parse] and [Response.json] produce.  Numbers are IEEE doubles. *)
#[warnings="-register-all"]
Inductive json : Type :=
| JNull
| JBool (b : bool)
| JNum (x : spec_float)
| JStr (s : string)
| JArr (l : list json)
| JObj (fs : list (string * json)).

(** The own entries of a decoded JSON object, one entry per key. *)
Definition jobject : Type := list (string * json).

(** The result of a property read: [undefined], a JSON value, or a member
    inherited from [Object.prototype] (a function, or the prototype itself). *)
Inductive jsval : Type :=
| JUndefined
| JVal (j : json)
| JInherited (k : string).

Inductive exn : Type :=
| TypeError
| SyntaxError (msg : string)
| Error (msg : string)
| FetchError (msg : string).

Inductive result (A : Type) : Type :=
| Return (a : A)
| Throw (e : exn).
Arguments Return {A} a.
Arguments Throw {A} e.

Definition Object_prototype_members : list string :=
  [ "constructor"; "hasOwnProperty"; "isPrototypeOf"; "propertyIsEnumerable";
    "toLocaleString"; "toString"; "valueOf"; "__proto__";
    "__defineGetter__"; "__defineSetter__"; "__lookupGetter__";
    "__lookupSetter__" ].

Fixpoint assoc (k : string) (fs : jobject) : option json :=
  match fs with
  | [] => None
  | (k', v) :: fs' => if decide (k' = k) then Some v else assoc k fs'
  end.

(** [o[k]] on a decoded object. *)
Definition js_index (o : jobject) (k : string) : jsval :=
  match assoc k o with
  | Some v => JVal v
  | None =>
      if decide (k ∈ Object_prototype_members) then JInherited k else JUndefined
  end.

(** [k in o] on a decoded object. *)
Definition js_in (k : string) (o : jobject) : bool :=
  match js_index o k with
  | JUndefined => false
  | _ => true
  end.

(** The property names the correlator reads with dot syntax.  None of them is
    a member of a built-in prototype, so on anything but a decoded object the
    read yields [undefined]; on [undefined] and [null] it raises. *)
Inductive field : Type := f_type | f_data | f_node | f_prompt_id.

Definition field_name (f : field) : string :=
  match f with
  | f_type => "type"
  | f_data => "data"
  | f_node => "node"
  | f_prompt_id => "prompt_id"
  end.

Definition js_field (v : jsval) (f : field) : result jsval :=
  match v with
  | JUndefined | JVal JNull => Throw TypeError
  | JVal (JObj fs) => Return (js_index fs (field_name f))
  | _ => Return JUndefined
  end.

Definition float_is_zero_or_nan (x : spec_float) : bool :=
  match x with
  | S754_zero _ | S754_nan => true
  | _ => false
  end.

(** ToBoolean. *)
Definition truthy (v : jsval) : bool :=
  match v with
  | JUndefined | JVal JNull => false
  | JVal (JBool b) => b
  | JVal (JNum x) => negb (float_is_zero_or_nan x)
  | JVal (JStr s) => negb (bool_decide (s = ""))
  | JVal (JArr _) | JVal (JObj _) | JInherited _ => true
  end.

(** [v === s] for a string [s]. *)
Definition strict_eq_string (v : jsval) (s : string) : bool :=
  match v with
  | JVal (JStr t) => bool_decide (t = s)
  | _ => false
  end.

(** An optional string field such as [token?: string], tested by [if (x)]. *)
Definition truthy_string (o : option string) : bool :=
  match o with
  | Some s => negb (bool_decide (s = ""))
  | None => false
  end.

(** ** The client object *)

(** Callbacks are closures, compared by reference.  [CbOpen n] .. [CbMessage n]
    are the four closures the [n]-th call of [connect] creates, [CbWait w] is
    the [onMessage] closure of the [w]-th call of [getResult], and [CbUser u]
    stands for a callback of the caller's own. *)
Inductive callback : Type :=
| CbOpen (n : nat)
| CbClose (n : nat)
| CbError (n : nat)
| CbMessage (n : nat)
| CbWait (w : nat)
| CbUser (u : nat).

#[global] Instance callback_eq_dec : EqDecision callback.
Proof. solve_decision. Defined.

(** [this.handlers]: four own properties, each an array of callbacks. *)
Record handlers : Type := Handlers {
  handlers_open : list callback;
  handlers_close : list callback;
  handlers_error : list callback;
  handlers_message : list callback;
}.

Definition no_handlers : handlers := Handlers [] [] [] [].

(** A WebSocket object, as created by [new WebSocket(url)]. *)
Record socket : Type := Socket { socket_id : nat; socket_url : string }.

Record client : Type := Client {
  host : string;
  token : option string;
  clientId : string;
  historyResult : jobject;
  handler_table : handlers;
  ws : option socket;
}.

(** [new ComfyUIClient(host, clientId, token)]. *)
Definition new_client (h : string) (id : string) (t : option string) : client :=
  Client h t id [] no_handlers None.

Definition set_handlers (c : client) (h : handlers) : client :=
  Client (host c) (token c) (clientId c) (historyResult c) h (ws c).

Definition set_ws (c : client) (s : option socket) : client :=
  Client (host c) (token c) (clientId c) (historyResult c) (handler_table c) s.

Definition set_historyResult (c : client) (j : jobject) : client :=
  Client (host c) (token c) (clientId c) j (handler_table c) (ws c).

(** What [this.handlers[event]] evaluates to. *)
Inductive handlers_entry : Type :=
| EntryList (l : list callback)
| EntryInherited
| EntryUndefined.

Definition handlers_get (h : handlers) (event : string) : handlers_entry :=
  if decide (event = "open") then EntryList (handlers_open h)
  else if decide (event = "close") then EntryList (handlers_close h)
  else if decide (event = "error") then EntryList (handlers_error h)
  else if decide (event = "message") then EntryList (handlers_message h)
  else if decide (event ∈ Object_prototype_members) then EntryInherited
  else EntryUndefined.

(** [this.handlers[event] = l], for an [event] that is an own property. *)
Definition handlers_set (h : handlers) (event : string) (l : list callback)
  : handlers :=
  if decide (event = "open") then
    Handlers l (handlers_close h) (handlers_error h) (handlers_message h)
  else if decide (event = "close") then
    Handlers (handlers_open h) l (handlers_error h) (handlers_message h)
  else if decide (event = "error") then
    Handlers (handlers_open h) (handlers_close h) l (handlers_message h)
  else if decide (event = "message") then
    Handlers (handlers_open h) (handlers_close h) (handlers_error h) l
  else h.

(** [this.ws.on = (event, callback) => { ... }] (client.ts, lines 94-100).
    An inherited member is truthy but has no [push]. *)
Definition ws_on (h : handlers) (event : string) (cb : callback)
  : result handlers :=
  match handlers_get h event with
  | EntryList l => Return (handlers_set h event (l ++ [cb]))
  | EntryInherited => Throw TypeError
  | EntryUndefined => Return h
  end.

(** [this.ws.off = (event, callback) => { ... }] (client.ts, lines 102-108). *)
Definition ws_off (h : handlers) (event : string) (cb : callback)
  : result handlers :=
  match handlers_get h event with
  | EntryList l => Return (handlers_set h event (filter (λ x, x ≠ cb) l))
  | EntryInherited => Throw TypeError
  | EntryUndefined => Return h
  end.

(** The four event categories. *)
Definition event_names : list string := [ "open"; "close"; "error"; "message" ].

(** ** The runtime

    Built-ins of the JavaScript runtime that the client calls and that are no
    code of this repository.  [JSON_parse] either returns the decoded value
    or raises the runtime's decode error. *)
Class Runtime : Type := {
  JSON_parse : string → result json;
  JSON_stringify : json → string;
  URLSearchParams_toString : list (string * string) → string;
}.

(** [s.replace(pat, rep)] for string arguments: the first occurrence only.
    ([rep] is used literally: the client's replacement text has no [$].) *)
Fixpoint replace_first (pat rep s : string) : string :=
  if String.prefix pat s then
    rep +:+ String.substring (String.length pat)
              (String.length s - String.length pat) s
  else
    match s with
    | EmptyString => EmptyString
    | String a s' => String a (replace_first pat rep s')
    end.

(** The [url] of [connect] (client.ts, lines 65-67). *)
Definition connect_url (c : client) : string :=
  replace_first "http" "ws" (host c) +:+ "/ws?clientId=" +:+ clientId c
  +:+ (if truthy_string (token c) then "&token=" +:+ default "" (token c)
       else "").

(** ** HTTP requests *)

Inductive form_entry : Type :=
| FormFile (name : string) (content : list Byte.byte) (filename : string)
| FormField (name value : string).

Inductive body : Type :=
| NoBody
| TextBody (s : string)
| FormBody (entries : list form_entry).

(** The arguments of a call of the global [fetch]: the URL and the init
    object's [method], [headers] and [body]. *)
Record request : Type := Request {
  req_url : string;
  req_method : option string;
  req_headers : list (string * string);
  req_body : body;
}.

(** Header objects are object literals: a later property of the same name
    overrides an earlier one, which keeps its position. *)
Fixpoint header_set (k v : string) (hs : list (string * string))
  : list (string * string) :=
  match hs with
  | [] => [(k, v)]
  | (k', v') :: hs' =>
      if decide (k' = k) then (k, v) :: hs' else (k', v') :: header_set k v hs'
  end.

(** [{ ...base, ...extra }]. *)
Definition spread (base extra : list (string * string))
  : list (string * string) :=
  fold_left (λ acc kv, header_set kv.1 kv.2 acc) extra base.

Fixpoint header_get (k : string) (hs : list (string * string)) : option string :=
  match hs with
  | [] => None
  | (k', v) :: hs' => if decide (k' = k) then Some v else header_get k hs'
  end.

Definition json_headers : list (string * string) :=
  [ ("Accept", "application/json"); ("Content-Type", "application/json") ].

(** The optional request override of [getHistory], [getQueue] and
    [getResult]: an object with a [host] and a [method]. *)
Record fetch_option : Type := FetchOption {
  fo_host : string;
  fo_method : string;
}.

(** The first argument of [getHistory], declared [any]. *)
Inductive history_arg : Type :=
| HUndefined
| HString (s : string)
| HOption (fo : fetch_option).

(** The REST methods of the client with their arguments. *)
Inductive rest_call : Type :=
| GetEmbeddings
| GetExtensions
| QueuePrompt (prompt : json)
| Interrupt
| EditHistory (params : json)
| UploadImage (image : list Byte.byte) (filename : string)
    (overwrite : option bool)
| UploadMask (image : list Byte.byte) (filename : string) (originalRef : json)
    (overwrite : option bool)
| GetImage (filename subfolder type : string)
| ViewMetadata (folderName filename : string)
| GetSystemStats
| GetPrompt
| GetObjectInfo (nodeClass : option string)
| GetHistory (fetchOptionOrPromptId : history_arg) (promptId : option string)
| GetQueue (fetchOption : option fetch_option)
| DeleteQueue (id : string).

Definition bool_toString (b : bool) : string := if b then "true" else "false".

Definition upload_form (image : list Byte.byte) (filename : string)
    (originalRef : option string) (overwrite : option bool) : list form_entry :=
  [FormFile "image" image filename]
  ++ match originalRef with
     | Some r => [FormField "originalRef" r]
     | None => []
     end
  ++ match overwrite with
     | Some b => [FormField "overwrite" (bool_toString b)]
     | None => []
     end.

(** The overload resolution at the head of [getHistory]: the request
    override, if any, and the job identifier, if any. *)
Definition getHistory_args (a : history_arg) (promptId : option string)
  : history_arg * option string :=
  match a, promptId with
  | HString s, None => (HUndefined, Some s)
  | _, _ => (a, promptId)
  end.

(** [fetchOption ? fetchOption.host : this.host], as text in a template. *)
Definition fetch_option_host (c : client) (fetchOption : history_arg) : string :=
  match fetchOption with
  | HUndefined => host c
  | HString s => if bool_decide (s = "") then host c else "undefined"
  | HOption fo => fo_host fo
  end.

(** [fetchOption ? fetchOption.method : dflt]. *)
Definition fetch_option_method (dflt : string) (fetchOption : history_arg)
  : option string :=
  match fetchOption with
  | HUndefined => Some dflt
  | HString s => if bool_decide (s = "") then Some dflt else None
  | HOption fo => Some (fo_method fo)
  end.

Definition history_url (h : string) (actualPromptId : option string) : string :=
  h +:+ "/history"
  +:+ (if truthy_string actualPromptId then "/" +:+ default "" actualPromptId
       else "").

Section Requests.
Context `{Runtime}.

(** [getRequestHeaders] (client.ts, lines 538-546). *)
Definition getRequestHeaders (c : client) : list (string * string) :=
  if truthy_string (token c) then
    [("Authorization", "Bearer " +:+ default "" (token c))]
  else [].

(** [getUrl] (client.ts, lines 548-553). *)
Definition getUrl (c : client) (path : string)
    (params : list (string * string)) : string :=
  host c +:+ path
  +:+ (match params with
       | [] => ""
       | _ => "?" +:+ URLSearchParams_toString params
       end).

(** The request each REST method of client.ts hands to [fetch]. *)
Definition request_of (c : client) (r : rest_call) : request :=
  match r with
  | GetEmbeddings =>
      Request (getUrl c "/embeddings" []) None (getRequestHeaders c) NoBody
  | GetExtensions =>
      Request (getUrl c "/extensions" []) None (getRequestHeaders c) NoBody
  | QueuePrompt prompt =>
      Request (getUrl c "/prompt" []) (Some "POST")
        (spread json_headers (getRequestHeaders c))
        (TextBody (JSON_stringify
           (JObj [("prompt", prompt); ("client_id", JStr (clientId c))])))
  | Interrupt =>
      Request (getUrl c "/interrupt" []) (Some "POST")
        (spread json_headers (getRequestHeaders c)) NoBody
  | EditHistory params =>
      Request (getUrl c "/history" []) (Some "POST")
        (spread json_headers (getRequestHeaders c))
        (TextBody (JSON_stringify params))
  | UploadImage image filename overwrite =>
      Request (getUrl c "/upload/image" []) (Some "POST")
        (getRequestHeaders c)
        (FormBody (upload_form image filename None overwrite))
  | UploadMask image filename originalRef overwrite =>
      Request (getUrl c "/upload/mask" []) (Some "POST")
        (getRequestHeaders c)
        (FormBody (upload_form image filename
                     (Some (JSON_stringify originalRef)) overwrite))
  | GetImage filename subfolder type =>
      Request
        (getUrl c "/view"
           [("filename", filename); ("subfolder", subfolder); ("type", type)])
        None (getRequestHeaders c) NoBody
  | ViewMetadata folderName filename =>
      Request
        (getUrl c ("/view_metadata/" +:+ folderName +:+ "?filename="
                   +:+ filename) [])
        None (getRequestHeaders c) NoBody
  | GetSystemStats =>
      Request (getUrl c "/system_stats" []) None (getRequestHeaders c) NoBody
  | GetPrompt =>
      Request (getUrl c "/prompt" []) None (getRequestHeaders c) NoBody
  | GetObjectInfo nodeClass =>
      Request
        (getUrl c ("/object_info"
                   +:+ (if truthy_string nodeClass
                        then "/" +:+ default "" nodeClass else "")) [])
        None (getRequestHeaders c) NoBody
  | GetHistory a promptId =>
      let '(fetchOption, actualPromptId) := getHistory_args a promptId in
      Request (history_url (fetch_option_host c fetchOption) actualPromptId)
        (fetch_option_method "get" fetchOption) (getRequestHeaders c) NoBody
  | GetQueue fetchOption =>
      let fo := from_option HOption HUndefined fetchOption in
      Request (fetch_option_host c fo +:+ "/queue")
        (fetch_option_method "get" fo) (getRequestHeaders c) NoBody
  | DeleteQueue id =>
      Request (getUrl c "/queue" []) (Some "POST")
        (spread json_headers (getRequestHeaders c))
        (TextBody (JSON_stringify (JObj [("delete", JStr id)])))
  end.

End Requests.

(** ** The revision with a private [fetch] helper (src/unnamed/part_000)

    The same class, with [getRequestHeaders] and [getUrl] folded into one
    private method [fetch] that every REST method but [getHistory] calls. *)
Module Part000.
Section Requests.
Context `{Runtime}.

(** The [options] argument of the private [fetch]: a [RequestInit]. *)
Record options : Type := Options {
  opt_method : option string;
  opt_headers : list (string * string);
  opt_body : body;
}.

Definition no_options : options := Options None [] NoBody.

(** The private [fetch] (part_000, lines 522-543). *)
Definition fetch (c : client) (path : string) (o : options)
    (params : list (string * string)) : request :=
  let headers :=
    if truthy_string (token c) then
      [("Authorization", "Bearer " +:+ default "" (token c))]
    else [] in
  Request
    (host c +:+ path
     +:+ (match params with
          | [] => ""
          | _ => "?" +:+ URLSearchParams_toString params
          end))
    (opt_method o) (spread (opt_headers o) headers) (opt_body o).

(** The request each REST method of this revision issues. *)
Definition request_of (c : client) (r : rest_call) : request :=
  match r with
  | GetEmbeddings => fetch c "/embeddings" no_options []
  | GetExtensions => fetch c "/extensions" no_options []
  | QueuePrompt prompt =>
      fetch c "/prompt"
        (Options (Some "POST") json_headers
           (TextBody (JSON_stringify
              (JObj [("prompt", prompt); ("client_id", JStr (clientId c))]))))
        []
  | Interrupt =>
      fetch c "/interrupt" (Options (Some "POST") json_headers NoBody) []
  | EditHistory params =>
      fetch c "/history"
        (Options (Some "POST") json_headers
           (TextBody (JSON_stringify params))) []
  | UploadImage image filename overwrite =>
      fetch c "/upload/image"
        (Options (Some "POST") []
           (FormBody (upload_form image filename None overwrite))) []
  | UploadMask image filename originalRef overwrite =>
      fetch c "/upload/mask"
        (Options (Some "POST") []
           (FormBody (upload_form image filename
                        (Some (JSON_stringify originalRef)) overwrite))) []
  | GetImage filename subfolder type =>
      fetch c "/view" no_options
        [("filename", filename); ("subfolder", subfolder); ("type", type)]
  | ViewMetadata folderName filename =>
      fetch c ("/view_metadata/" +:+ folderName +:+ "?filename="
               +:+ filename) no_options []
  | GetSystemStats => fetch c "/system_stats" no_options []
  | GetPrompt => fetch c "/prompt" no_options []
  | GetObjectInfo nodeClass =>
      fetch c ("/object_info"
               +:+ (if truthy_string nodeClass
                    then "/" +:+ default "" nodeClass else ""))
        no_options []
  | GetHistory a promptId =>
      (* lines 368-373: the global [fetch], with [{ method }] alone *)
      let '(fetchOption, actualPromptId) := getHistory_args a promptId in
      Request (history_url (fetch_option_host c fetchOption) actualPromptId)
        (fetch_option_method "get" fetchOption) [] NoBody
  | GetQueue fetchOption =>
      let fo := from_option HOption HUndefined fetchOption in
      fetch c (fetch_option_host c fo +:+ "/queue")
        (Options (fetch_option_method "GET" fo) [] NoBody) []
  | DeleteQueue id =>
      fetch c "/queue"
        (Options (Some "POST") json_headers
           (TextBody (JSON_stringify (JObj [("delete", JStr id)])))) []
  end.

End Requests.
End Part000.

(** ** Replies *)

(** How an awaited [fetch(...)] followed by [res.json()] ends: with the
    decoded body, or with the failure of either call.  Every REST method
    annotates the decoded body with a union of object types (such as
    [QueuePromptResult | ResponseError]); a body is the own entries of that
    object. *)
Inductive fetch_reply : Type :=
| Reply (json : jobject)
| ReplyFailure (e : exn).

Section Rest.
Context `{Runtime}.

(** The tail shared by the REST methods:
    [if ('error' in json) throw new Error(JSON.stringify(json)); return json]. *)
Definition rest_result (r : fetch_reply) : result jobject :=
  match r with
  | ReplyFailure e => Throw e
  | Reply json =>
      if js_in "error" json then Throw (Error (JSON_stringify (JObj json)))
      else Return json
  end.

(** [queuePrompt] (client.ts, lines 170-191): the request it issues, and
    what it returns or raises once the reply is in. *)
Definition queuePrompt (c : client) (prompt : json)
  : request * (fetch_reply → result jobject) :=
  (request_of c (QueuePrompt prompt), rest_result).

(** [getHistory] (client.ts, lines 358-395): the request it issues, and
    what it does once the reply is in; on success the body is also stored
    in [this.historyResult]. *)
Definition getHistory (c : client) (a : history_arg)
    (promptId : option string)
  : request * (client → fetch_reply → client * result jobject) :=
  (request_of c (GetHistory a promptId),
   λ c' r,
     match rest_result r with
     | Return json => (set_historyResult c' json, Return json)
     | Throw e => (c', Throw e)
     end).

End Rest.

Arguments rest_result : simpl never.

(** ** Frames and the message callbacks *)

(** The [data] of a socket's message event: a string for a text frame; for
    a binary frame a [Blob] or, where the socket's [binaryType] is
    ['arraybuffer'], an [ArrayBuffer]. *)
Inductive ws_data : Type :=
| DataText (s : string)
| DataBlob (b : list Byte.byte)
| DataArrayBuffer (b : list Byte.byte).

(** [event.data instanceof Blob] (client.ts, line 89). *)
Definition is_blob (d : ws_data) : bool :=
  match d with
  | DataBlob _ => true
  | _ => false
  end.

(** [data.toString()]. *)
Definition data_toString (d : ws_data) : string :=
  match d with
  | DataText s => s
  | DataBlob _ => "[object Blob]"
  | DataArrayBuffer _ => "[object ArrayBuffer]"
  end.

(** The [message] callback registered by [connect] (client.ts, lines
    126-133), as the list of calls of [this.eventEmitter] it makes. *)
Definition transport_onMessage (data : ws_data) (isBinary : bool)
  : list (string * ws_data) :=
  if isBinary then [] else [("message", data)].

#[global] Instance result_bind : MBind result :=
  λ A B f r,
    match r with
    | Return a => f a
    | Throw e => Throw e
    end.

(** Whether converting a decoded value to a string raises: an object with an
    own [toString] entry has no callable conversion, and an array converts
    its elements. *)
Fixpoint toString_throws (j : json) : bool :=
  match j with
  | JObj fs => bool_decide (is_Some (assoc "toString" fs))
  | JArr l => existsb toString_throws l
  | _ => false
  end.

(** The text of a template literal's substitution, as far as it can raise. *)
Definition template_substitution (v : jsval) : result unit :=
  match v with
  | JVal j => if toString_throws j then Throw TypeError else Return ()
  | _ => Return ()
  end.

(** What one run of [onMessage] does before its first suspension. *)
Inductive verdict : Type :=
| Ignore
| RejectWith (e : exn)
| AwaitHistory.

Section Correlator.
Context `{Runtime}.

(** The body of the [try] block of [onMessage] up to the test of line 484
    (client.ts, lines 475-484): whether the message reports the awaited
    job as done. *)
Definition onMessage_try (promptId : string) (data : ws_data) : result bool :=
  message ← JSON_parse (data_toString data);
  type ← js_field (JVal message) f_type;
  if strict_eq_string type "executing" then
    messageData ← js_field (JVal message) f_data;
    node ← js_field messageData f_node;
    if negb (truthy node) then
      donePromptId ← js_field messageData f_prompt_id;
      _ ← template_substitution donePromptId;
      Return (strict_eq_string donePromptId promptId)
    else Return false
  else Return false.

(** [onMessage] up to the [await] of line 486 (client.ts, lines 468-497). *)
Definition onMessage (promptId : string) (data : ws_data) (isBinary : bool)
  : verdict :=
  if isBinary then Ignore
  else
    match onMessage_try promptId data with
    | Throw err => RejectWith err
    | Return true => AwaitHistory
    | Return false => Ignore
    end.

End Correlator.

(** ** Promises and the client's environment *)

Inductive promise : Type :=
| Pending
| Resolved (v : jsval)
| Rejected (e : exn).

(** [resolve] and [reject] act on a pending promise only. *)
Definition settle (p q : promise) : promise :=
  match p with
  | Pending => q
  | _ => p
  end.

(** The two call shapes of [getResult] (client.ts, lines 455-463). *)
Inductive getResult_call : Type :=
| GetResultOld (prompt : json)
| GetResultNew (fetchOption : option fetch_option) (prompt : json).

Definition getResult_args (a : getResult_call) : option fetch_option * json :=
  match a with
  | GetResultOld prompt => (None, prompt)
  | GetResultNew fetchOption prompt => (fetchOption, prompt)
  end.

(** One call of [getResult]: its arguments, the job identifier once
    [queuePrompt] has returned it, and the promise handed to the caller. *)
Record call : Type := Call {
  call_fetchOption : option fetch_option;
  call_prompt : json;
  call_promptId : option string;
  call_promise : promise;
}.

Definition call_settle (q : promise) (k : call) : call :=
  Call (call_fetchOption k) (call_prompt k) (call_promptId k)
       (settle (call_promise k) q).

(** The client together with what it has done to its environment:
    the calls of [getResult] made, the fetches of history in flight, the
    calls of [eventEmitter], the requests handed to [fetch], the sockets
    closed, the number of sockets created, and the number of calls of
    [connect] that wait at their [await]. *)
Record world : Type := World {
  the_client : client;
  calls : list call;
  inflight : list nat;
  emitted : list (string * ws_data);
  requests : list request;
  closed : list socket;
  connects : nat;
  suspended : nat;
}.

Definition new_world (c : client) : world := World c [] [] [] [] [] 0 0.

Definition with_client (W : world) (c : client) : world :=
  World c (calls W) (inflight W) (emitted W) (requests W) (closed W)
        (connects W) (suspended W).

Definition with_calls (W : world) (cs : list call) : world :=
  World (the_client W) cs (inflight W) (emitted W) (requests W) (closed W)
        (connects W) (suspended W).

Definition with_inflight (W : world) (l : list nat) : world :=
  World (the_client W) (calls W) l (emitted W) (requests W) (closed W)
        (connects W) (suspended W).

Definition emit (W : world) (l : list (string * ws_data)) : world :=
  World (the_client W) (calls W) (inflight W) (emitted W ++ l) (requests W)
        (closed W) (connects W) (suspended W).

Definition send (W : world) (r : request) : world :=
  World (the_client W) (calls W) (inflight W) (emitted W) (requests W ++ [r])
        (closed W) (connects W) (suspended W).

Definition settle_call (W : world) (w : nat) (q : promise) : world :=
  with_calls W (alter (call_settle q) w (calls W)).

Definition promise_of (W : world) (w : nat) : option promise :=
  call_promise <$> calls W !! w.

Definition promptId_of (W : world) (w : nat) : option string :=
  calls W !! w ≫= call_promptId.

Definition message_handlers (W : world) : list callback :=
  handlers_message (handler_table (the_client W)).

(** [disconnect] (client.ts, lines 137-142).  [close()] without arguments
    does not raise, so the [async] method always fulfils. *)
Definition disconnect (W : world) : world * result unit :=
  match ws (the_client W) with
  | Some s =>
      (World (set_ws (the_client W) None) (calls W) (inflight W) (emitted W)
             (requests W) (closed W ++ [s]) (connects W) (suspended W),
       Return ())
  | None => (W, Return ())
  end.

(** The four registrations at the end of [connect] (client.ts, lines
    111-133). *)
Definition connect_handlers (h : handlers) (n : nat) : result handlers :=
  h1 ← ws_on h "open" (CbOpen n);
  h2 ← ws_on h1 "close" (CbClose n);
  h3 ← ws_on h2 "error" (CbError n);
  ws_on h3 "message" (CbMessage n).

(** The executor of [connect] from line 65 on (client.ts, lines 65-133): a
    socket is created for [url] and assigned to [this.ws], whatever that
    held, and the four callbacks of this call are registered. *)
Definition connect_open (W : world) : world :=
  let c := the_client W in
  let n := connects W in
  let c1 := set_ws c (Some (Socket n (connect_url c))) in
  let c2 := match connect_handlers (handler_table c1) n with
            | Return h => set_handlers c1 h
            | Throw _ => c1
            end in
  World c2 (calls W) (inflight W) (emitted W) (requests W) (closed W)
        (S n) (suspended W).

(** One more call of [connect] waits at its [await]. *)
Definition suspend (W : world) : world :=
  World (the_client W) (calls W) (inflight W) (emitted W) (requests W)
        (closed W) (connects W) (S (suspended W)).

(** [connect] (client.ts, lines 59-135), up to the first point where its
    executor stops.  With no channel held that is its end.  With one held,
    [disconnect] is called and the executor is suspended at the [await] of
    line 62; what follows runs later. *)
Definition connect (W : world) : world :=
  match ws (the_client W) with
  | Some _ => suspend (disconnect W).1
  | None => connect_open W
  end.

(** A call of [connect] suspended at its [await] goes on, if there is one. *)
Definition connect_resume (W : world) : option world :=
  match suspended W with
  | S n =>
      Some (connect_open
              (World (the_client W) (calls W) (inflight W) (emitted W)
                     (requests W) (closed W) (connects W) n))
  | 0 => None
  end.

(** What happens around the client: the caller calls [connect],
    [disconnect], [on] with a callback of its own, [off], [getHistory] (with
    its reply) or [getResult]; the reply to the job posted by call [w] of
    [getResult] arrives; a socket delivers a frame; the reply to the [i]-th
    fetch of history in flight arrives; a suspended call of [connect] goes
    on.  The runtime resumes a suspended [connect] once the code that called
    it has run to its end; here it may go on at any later point, so what
    holds of every run below holds of every run of the client. *)
Inductive event : Type :=
| EvConnect
| EvDisconnect
| EvOn (name : string) (u : nat)
| EvOff (name : string) (cb : callback)
| EvGetHistory (a : history_arg) (promptId : option string) (r : fetch_reply)
| EvGetResult (a : getResult_call)
| EvQueueReply (w : nat) (r : fetch_reply)
| EvFrame (d : ws_data)
| EvHistoryReply (i : nat) (r : fetch_reply)
| EvConnectResume.

Section Environment.
Context `{Runtime}.

(** [getResult] up to the [await] of line 464: the job is posted. *)
Definition getResult (W : world) (a : getResult_call) : world :=
  let '(fetchOption, prompt) := getResult_args a in
  send (with_calls W (calls W ++ [Call fetchOption prompt None Pending]))
       (queuePrompt (the_client W) prompt).1.

(** The executor of the promise of [getResult] (client.ts, lines 467-502):
    [this.ws?.on('message', onMessage)]. *)
Definition getResult_executor (W : world) (w : nat) : world :=
  match ws (the_client W) with
  | Some _ =>
      match ws_on (handler_table (the_client W)) "message" (CbWait w) with
      | Return h => with_client W (set_handlers (the_client W) h)
      | Throw err => settle_call W w (Rejected err)
      end
  | None => W
  end.

(** [getResult] from line 464 on, once the reply to the posted job is in.
    [QueuePromptResult] declares [prompt_id] a string; a body without the
    [error] entry and without such a [prompt_id] is outside the declared
    type and has no step. *)
Definition getResult_resume (W : world) (w : nat) (r : fetch_reply)
  : option world :=
  match calls W !! w with
  | Some (Call fetchOption prompt None Pending) =>
      match (queuePrompt (the_client W) prompt).2 r with
      | Throw err => Some (settle_call W w (Rejected err))
      | Return queue =>
          match js_index queue "prompt_id" with
          | JVal (JStr promptId) =>
              Some (getResult_executor
                      (with_calls W
                         (<[w := Call fetchOption prompt (Some promptId)
                                      Pending]> (calls W)))
                      w)
          | _ => None
          end
      end
  | _ => None
  end.

(** One callback of [handlers.message] called with [(data, isBinary)].
    The callbacks of the caller are taken to leave the client alone. *)
Definition call_back (data : ws_data) (isBinary : bool) (W : world)
    (cb : callback) : world :=
  match cb with
  | CbMessage _ => emit W (transport_onMessage data isBinary)
  | CbError _ => emit W [("error", data)]
  | CbWait w =>
      match calls W !! w with
      | Some (Call fetchOption _ (Some promptId) _) =>
          match onMessage promptId data isBinary with
          | Ignore => W
          | RejectWith err => settle_call W w (Rejected err)
          | AwaitHistory =>
              with_inflight
                (send W (getHistory (the_client W)
                           (from_option HOption HUndefined fetchOption)
                           (Some promptId)).1)
                (inflight W ++ [w])
          end
      | _ => W
      end
  | CbOpen _ | CbClose _ | CbUser _ => W
  end.

(** [this.ws.onmessage] (client.ts, lines 87-91). *)
Definition onmessage (W : world) (data : ws_data) : world :=
  fold_left (call_back data (is_blob data)) (message_handlers W) W.

(** [onMessage] from line 486 on, once the reply to its [getHistory] is
    in (client.ts, lines 486-497). *)
Definition onMessage_resume (W : world) (i : nat) (r : fetch_reply)
  : option world :=
  match inflight W !! i with
  | Some w =>
      match calls W !! w with
      | Some (Call fetchOption _ (Some promptId) _) =>
          let W1 := with_inflight W (delete i (inflight W)) in
          let c := the_client W1 in
          match (getHistory c (from_option HOption HUndefined fetchOption)
                   (Some promptId)).2 c r with
          | (c1, Throw err) =>
              Some (settle_call (with_client W1 c1) w (Rejected err))
          | (c1, Return historyRes) =>
              let history := js_index historyRes promptId in
              match ws c1 with
              | Some _ =>
                  match ws_off (handler_table c1) "message" (CbWait w) with
                  | Return h =>
                      Some (settle_call
                              (with_client W1 (set_handlers c1 h)) w
                              (Resolved history))
                  | Throw err =>
                      Some (settle_call (with_client W1 c1) w (Rejected err))
                  end
              | None =>
                  Some (settle_call (with_client W1 c1) w (Resolved history))
              end
          end
      | _ => None
      end
  | None => None
  end.

Definition apply_handlers (W : world) (r : result handlers) : world :=
  match r with
  | Return h => with_client W (set_handlers (the_client W) h)
  | Throw _ => W
  end.

(** One event; [None] when the event cannot occur in [W]. *)
Definition step (W : world) (e : event) : option world :=
  match e with
  | EvConnect => Some (connect W)
  | EvDisconnect => Some (disconnect W).1
  | EvOn name u =>
      Some (apply_handlers W
              (ws_on (handler_table (the_client W)) name (CbUser u)))
  | EvOff name cb =>
      Some (apply_handlers W (ws_off (handler_table (the_client W)) name cb))
  | EvGetHistory a promptId r =>
      let g := getHistory (the_client W) a promptId in
      Some (with_client (send W g.1) (g.2 (the_client W) r).1)
  | EvGetResult a => Some (getResult W a)
  | EvQueueReply w r => getResult_resume W w r
  | EvFrame d => Some (onmessage W d)
  | EvHistoryReply i r => onMessage_resume W i r
  | EvConnectResume => connect_resume W
  end.

Fixpoint run (W : world) (es : list event) : option world :=
  match es with
  | [] => Some W
  | e :: es' =>
      match step W e with
      | Some W' => run W' es'
      | None => None
      end
  end.

(** The worlds a fresh client can get into. *)
Definition reachable (W : world) : Prop :=
  ∃ h id t es, run (new_world (new_client h id t)) es = Some W.

(** The data is no [Blob], so the client takes the frame for text, and its
    text decodes to an event of kind ['executing'] whose payload has no
    (truthy) [node] and whose [prompt_id] is [promptId]. *)
Definition completion_event (promptId : string) (d : ws_data) : Prop :=
  is_blob d = false
  ∧ ∃ message messageData node,
      JSON_parse (data_toString d) = Return message
      ∧ js_field (JVal message) f_type = Return (JVal (JStr "executing"))
      ∧ js_field (JVal message) f_data = Return messageData
      ∧ js_field messageData f_node = Return node
      ∧ truthy node = false
      ∧ js_field messageData f_prompt_id = Return (JVal (JStr promptId)).

(** The data is no [Blob] and its text decodes to an event of another
    kind, or to an event of kind ['executing'] that still names a current
    node, or to one that names no node and the job [other], not
    [promptId]. *)
Definition running_or_other_event (promptId : string) (d : ws_data) : Prop :=
  is_blob d = false
  ∧ ∃ message type,
      JSON_parse (data_toString d) = Return message
      ∧ js_field (JVal message) f_type = Return type
      ∧ (type ≠ JVal (JStr "executing")
         ∨ ∃ messageData node,
             type = JVal (JStr "executing")
             ∧ js_field (JVal message) f_data = Return messageData
             ∧ js_field messageData f_node = Return node
             ∧ (truthy node = true
                ∨ ∃ other,
                    js_field messageData f_prompt_id
                    = Return (JVal (JStr other))
                    ∧ other ≠ promptId)).

(** What the events [es] seen so far account for in [W]: each job
    identifier came in a reply to the posted job, each fetch of history in
    flight was asked for on a frame of [es], and each resolved promise was
    resolved from a history reply of [es] asked for on such a frame. *)
Definition traced (es : list event) (W : world) : Prop :=
  ∀ w,
    (∀ promptId, promptId_of W w = Some promptId →
     ∃ queue,
       EvQueueReply w (Reply queue) ∈ es
       ∧ assoc "error" queue = None
       ∧ js_index queue "prompt_id" = JVal (JStr promptId))
    ∧ (w ∈ inflight W →
     ∃ promptId d,
       promptId_of W w = Some promptId ∧ EvFrame d ∈ es
       ∧ onMessage promptId d (is_blob d) = AwaitHistory)
    ∧ (∀ v, promise_of W w = Some (Resolved v) →
       ∃ promptId d i historyRes,
         promptId_of W w = Some promptId ∧ EvFrame d ∈ es
         ∧ onMessage promptId d (is_blob d) = AwaitHistory
         ∧ EvHistoryReply i (Reply historyRes) ∈ es
         ∧ assoc "error" historyRes = None
         ∧ v = js_index historyRes promptId).

End Environment.

(** ** A stand-in runtime, to run the embedding on examples

    The statements below hold for every [Runtime]; this one decodes the three
    texts of the completion scenario, prints JSON without escapes (and every
    number as zero), and joins query parameters without percent-encoding. *)

Definition dq : string := String (Ascii.ascii_of_nat 34) EmptyString.

Definition quote (s : string) : string := dq +:+ s +:+ dq.

(** [{"type":"executing","data":{"node":<node>,"prompt_id":"<id>"}}] *)
Definition executing_text (node : string) (id : string) : string :=
  "{" +:+ quote "type" +:+ ":" +:+ quote "executing" +:+ ","
  +:+ quote "data" +:+ ":{" +:+ quote "node" +:+ ":" +:+ node +:+ ","
  +:+ quote "prompt_id" +:+ ":" +:+ quote id +:+ "}}".

Definition executing_json (node : json) (id : string) : json :=
  JObj [("type", JStr "executing");
        ("data", JObj [("node", node); ("prompt_id", JStr id)])].

Definition text_running : string := executing_text (quote "5") "abc123".
Definition text_done : string := executing_text "null" "abc123".
Definition text_other : string := executing_text "null" "zzz999".

Definition demo_parse (s : string) : result json :=
  if decide (s = text_running) then Return (executing_json (JStr "5") "abc123")
  else if decide (s = text_done) then Return (executing_json JNull "abc123")
  else if decide (s = text_other) then Return (executing_json JNull "zzz999")
  else Throw (SyntaxError "Unexpected token").

Fixpoint demo_stringify (j : json) : string :=
  match j with
  | JNull => "null"
  | JBool b => bool_toString b
  | JNum _ => "0"
  | JStr s => quote s
  | JArr l =>
      "[" +:+ (fix items (l : list json) : string :=
                 match l with
                 | [] => ""
                 | [x] => demo_stringify x
                 | x :: l' => demo_stringify x +:+ "," +:+ items l'
                 end) l +:+ "]"
  | JObj fs =>
      "{" +:+ (fix entries (fs : list (string * json)) : string :=
                 match fs with
                 | [] => ""
                 | [(k, v)] => quote k +:+ ":" +:+ demo_stringify v
                 | (k, v) :: fs' =>
                     quote k +:+ ":" +:+ demo_stringify v +:+ ","
                     +:+ entries fs'
                 end) fs +:+ "}"
  end.

Fixpoint demo_query (ps : list (string * string)) : string :=
  match ps with
  | [] => ""
  | [(k, v)] => k +:+ "=" +:+ v
  | (k, v) :: ps' => k +:+ "=" +:+ v +:+ "&" +:+ demo_query ps'
  end.

Definition demo_runtime : Runtime :=
  {| JSON_parse := demo_parse;
     JSON_stringify := demo_stringify;
     URLSearchParams_toString := demo_query |}.

Definition demo_client : client :=
  new_client "http://127.0.0.1:8188" "client-1" (Some "secret").

Definition demo_prompt : json := JObj [("nodes", JObj [])].

Definition demo_history : jobject :=
  [("abc123", JObj [("outputs", JObj [])])].

(** The completion scenario up to the completion message: connect, call
    [getResult], receive the job identifier ["abc123"], then a frame that
    still names node ["5"], then the frame that names none. *)
Definition demo_events : list event :=
  [ EvConnect;
    EvGetResult (GetResultOld demo_prompt);
    EvQueueReply 0 (Reply [("prompt_id", JStr "abc123")]);
    EvFrame (DataText text_running);
    EvFrame (DataText text_done) ].

Definition demo_world : world :=
  default (new_world demo_client)
    (run (H := demo_runtime) (new_world demo_client) demo_events).

(** Then the history arrives, and three more frames after it. *)
Definition demo_resolved : world :=
  default demo_world
    (step (H := demo_runtime) demo_world
       (EvHistoryReply 0 (Reply demo_history))).

Definition demo_trace : list event :=
  demo_events ++ [EvHistoryReply 0 (Reply demo_history)].

Definition demo_afterwards : list event :=
  [ EvFrame (DataText text_other);
    EvFrame (DataText "}{");
    EvFrame (DataText text_done) ].

Definition demo_later : world :=
  default demo_resolved (run (H := demo_runtime) demo_resolved demo_afterwards).

(** The scenario again, with the channel closed by the caller between the
    completion message and the arrival of the history; afterwards the caller
    connects again and the server repeats the completion message. *)
Definition demo_race_events : list event :=
  [ EvConnect;
    EvGetResult (GetResultOld demo_prompt);
    EvQueueReply 0 (Reply [("prompt_id", JStr "abc123")]);
    EvFrame (DataText text_done);
    EvDisconnect;
    EvHistoryReply 0 (Reply demo_history) ].

Definition demo_race_afterwards : list event :=
  [ EvConnect; EvFrame (DataText text_done) ].

(** The same call, up to the job identifier. *)
Definition demo_listening : world :=
  default (new_world demo_client)
    (run (H := demo_runtime) (new_world demo_client) (take 3 demo_events)).

(** ** The revision without a token (src/unnamed/part_000, second class)

    The older [ComfyUIClient] of part_000: no [token], every REST method
    calls the global [fetch] on [`${this.host}...`] itself, and [getHistory]
    and [getQueue] take no request override. *)
Module Part000Old.
Section Requests.
Context `{Runtime}.

(** The [url] of [connect] (part_000, line 595). *)
Definition connect_url (c : client) : string :=
  replace_first "http" "ws" (host c) +:+ "/ws?clientId=" +:+ clientId c.

(** [`/${promptId}`] for the one parameter of [getHistory], declared
    [string]; a request override passed in its place is a plain object. *)
Definition promptId_text (promptId : history_arg) : string :=
  match promptId with
  | HUndefined => ""
  | HString s => if truthy_string (Some s) then "/" +:+ s else ""
  | HOption _ => "/[object Object]"
  end.

(** The request each REST method of this revision hands to [fetch]
    (part_000, lines 657-905).  Arguments beyond a method's parameters are
    ignored. *)
Definition request_of (c : client) (r : rest_call) : request :=
  match r with
  | GetEmbeddings => Request (host c +:+ "/embeddings") None [] NoBody
  | GetExtensions => Request (host c +:+ "/extensions") None [] NoBody
  | QueuePrompt prompt =>
      Request (host c +:+ "/prompt") (Some "POST") json_headers
        (TextBody (JSON_stringify
           (JObj [("prompt", prompt); ("client_id", JStr (clientId c))])))
  | Interrupt =>
      Request (host c +:+ "/interrupt") (Some "POST") json_headers NoBody
  | EditHistory params =>
      Request (host c +:+ "/history") (Some "POST") json_headers
        (TextBody (JSON_stringify params))
  | UploadImage image filename overwrite =>
      Request (host c +:+ "/upload/image") (Some "POST") []
        (FormBody (upload_form image filename None overwrite))
  | UploadMask image filename originalRef overwrite =>
      Request (host c +:+ "/upload/mask") (Some "POST") []
        (FormBody (upload_form image filename
                     (Some (JSON_stringify originalRef)) overwrite))
  | GetImage filename subfolder type =>
      Request
        ((host c +:+ "/view?")
         +:+ URLSearchParams_toString
               [("filename", filename); ("subfolder", subfolder);
                ("type", type)])
        None [] NoBody
  | ViewMetadata folderName filename =>
      Request
        (host c +:+ "/view_metadata/" +:+ folderName +:+ "?filename="
         +:+ filename)
        None [] NoBody
  | GetSystemStats => Request (host c +:+ "/system_stats") None [] NoBody
  | GetPrompt => Request (host c +:+ "/prompt") None [] NoBody
  | GetObjectInfo nodeClass =>
      Request
        ((host c +:+ "/object_info")
         +:+ (if truthy_string nodeClass then "/" +:+ default "" nodeClass
              else ""))
        None [] NoBody
  | GetHistory promptId _ =>
      Request ((host c +:+ "/history") +:+ promptId_text promptId)
        None [] NoBody
  | GetQueue _ => Request (host c +:+ "/queue") None [] NoBody
  | DeleteQueue id =>
      Request (host c +:+ "/queue") (Some "POST") json_headers
        (TextBody (JSON_stringify (JObj [("delete", JStr id)])))
  end.

End Requests.
End Part000Old.

(** ** Further parts of the client *)

(** The [message] callbacks registered by [connect]. *)
Definition is_transport_callback (cb : callback) : bool :=
  match cb with
  | CbMessage _ => true
  | _ => false
  end.

(** What one message listener hands to [this.eventEmitter] for a frame. *)
Definition forwarded (data : ws_data) (isBinary : bool) (cb : callback)
  : list (string * ws_data) :=
  match cb with
  | CbMessage _ => transport_onMessage data isBinary
  | CbError _ => [("error", data)]
  | _ => []
  end.

(** How many [message] callbacks of [connect] are registered. *)
Definition transport_listeners (W : world) : nat :=
  length (filter (λ cb, is_transport_callback cb = true) (message_handlers W)).

(** Every socket the client has created: the closed ones, oldest first, and
    the one it holds. *)
Definition sockets (W : world) : list socket :=
  (closed W ++ match ws (the_client W) with
               | Some s => [s]
               | None => []
               end)%list.

(** ** The artifact collector *)

(** Modelled from the spec: the types [ImageRef], [NodeOutput],
    [PromptHistory] and [ImageContainer] of types.ts, which is not under
    src/.  An image descriptor is a (filename, subfolder, type) triple; a
    history record holds, per output node, result data with zero or more
    image descriptors; a container pairs a descriptor with its blob.  The
    entries of [outputs] are the object's own properties in the order
    [Object.keys] enumerates them. *)
Record ImageRef : Type := {
  filename : string;
  subfolder : string;
  type : string;
}.

Record NodeOutput : Type := { images : option (list ImageRef) }.

Record PromptHistory : Type := { outputs : list (string * NodeOutput) }.

Record ImageContainer : Type := {
  blob : list Byte.byte;
  image : ImageRef;
}.

(** [ImagesResponse]: the own entries of [outputImages]. *)
Definition ImagesResponse : Type := list (string * list ImageContainer).

(** How one [getImage] ends: with the blob, or with the failure of [fetch]
    or of [res.blob()] (client.ts, lines 275-295). *)
Inductive blob_reply : Type :=
| BlobReply (b : list Byte.byte)
| BlobFailure (e : exn).

(** [o[k]] on the own entries of an object. *)
Fixpoint own {A : Type} (k : string) (o : list (string * A)) : option A :=
  match o with
  | [] => None
  | (k', v) :: o' => if decide (k' = k) then Some v else own k o'
  end.

(** [o[k] = v] on an object created by [{}]: an existing entry is
    overwritten in place, a new one goes last; assigning to [__proto__] sets
    the prototype and adds no entry. *)
Fixpoint own_set {A : Type} (k : string) (v : A) (o : list (string * A))
  : list (string * A) :=
  match o with
  | [] => [(k, v)]
  | (k', v') :: o' =>
      if decide (k' = k) then (k, v) :: o' else (k', v') :: own_set k v o'
  end.

Definition object_set {A : Type} (k : string) (v : A) (o : list (string * A))
  : list (string * A) :=
  if decide (k = "__proto__") then o else own_set k v o.

Section Collector.
Context `{Runtime}.

(** The request of [getImage(image.filename, image.subfolder, image.type)]. *)
Definition image_request (c : client) (i : ImageRef) : request :=
  request_of c (GetImage (filename i) (subfolder i) (type i)).

(** The inner loop of [getImages] (client.ts, lines 516-526): the images of
    one node, fetched one after the other.  [replies k] is how the [k]-th
    fetch of the collection ends.  The requests made come first. *)
Fixpoint fetch_images (c : client) (replies : nat → blob_reply) (k : nat)
    (l : list ImageRef) : list request * result (list ImageContainer) :=
  match l with
  | [] => ([], Return [])
  | i :: l' =>
      match replies k with
      | BlobFailure err => ([image_request c i], Throw err)
      | BlobReply b =>
          let '(rs, r) := fetch_images c replies (S k) l' in
          (image_request c i :: rs,
           imagesOutput ← r; Return ({| blob := b; image := i |} :: imagesOutput))
      end
  end.

(** The outer loop (client.ts, lines 512-530) over the node identifiers
    still to visit. *)
Fixpoint collect (c : client) (replies : nat → blob_reply)
    (history_outputs : list (string * NodeOutput)) (k : nat)
    (nodeIds : list string) (outputImages : ImagesResponse)
  : list request * result ImagesResponse :=
  match nodeIds with
  | [] => ([], Return outputImages)
  | nodeId :: nodeIds' =>
      match own nodeId history_outputs with
      | None => ([], Throw TypeError)
      | Some nodeOutput =>
          match images nodeOutput with
          | None =>
              collect c replies history_outputs k nodeIds' outputImages
          | Some l =>
              match fetch_images c replies k l with
              | (rs, Throw err) => (rs, Throw err)
              | (rs, Return imagesOutput) =>
                  let '(rs', r) :=
                    collect c replies history_outputs (k + length rs)
                      nodeIds'
                      (object_set nodeId imagesOutput outputImages) in
                  ((rs ++ rs')%list, r)
              end
          end
      end
  end.

(** [getImages] (client.ts, lines 505-536), given how [getResult] ended:
    rejected, or resolved with the history record of the job, if the history
    result had one.  The requests for images come first, then what the
    promise of [getImages] settles with. *)
Definition getImages (c : client) (replies : nat → blob_reply)
    (history : result (option PromptHistory))
  : list request * result ImagesResponse :=
  match history with
  | Throw err => ([], Throw err)
  | Return None => ([], Throw TypeError)
  | Return (Some h) =>
      collect c replies (outputs h) 0 (map fst (outputs h)) []
  end.

End Collector.

(** The images a node's output lists, and those of all nodes in order. *)
Definition node_images (o : string * NodeOutput) : list ImageRef :=
  default [] (images o.2).

Definition all_images (os : list (string * NodeOutput)) : list ImageRef :=
  concat (map node_images os).

Definition has_images (o : string * NodeOutput) : bool :=
  match images o.2 with
  | Some _ => true
  | None => false
  end.

Arguments image_request : simpl never.

(** The blob a successful [getImage] ended with. *)
Definition blob_of (r : blob_reply) : list Byte.byte :=
  match r with
  | BlobReply b => b
  | BlobFailure _ => []
  end.

(** The containers of the images [l] when their fetches are the [k]-th and
    following ones, and what the nodes [os] contribute when the fetches for
    them start at the [k]-th: one entry per node that lists images. *)
Fixpoint containers (replies : nat → blob_reply) (k : nat) (l : list ImageRef)
  : list ImageContainer :=
  match l with
  | [] => []
  | i :: l' =>
      {| blob := blob_of (replies k); image := i |}
        :: containers replies (S k) l'
  end.

Fixpoint gathered (replies : nat → blob_reply) (k : nat)
    (os : list (string * NodeOutput)) : ImagesResponse :=
  match os with
  | [] => []
  | (nodeId, o) :: os' =>
      match images o with
      | None => gathered replies k os'
      | Some l =>
          (nodeId, containers replies k l)
            :: gathered replies (k + length l) os'
      end
  end.

(** ** More examples *)

Definition demo_image (n : string) : ImageRef :=
  {| filename := n; subfolder := ""; type := "output" |}.

Definition demo_outputs : PromptHistory :=
  {| outputs :=
       [ ("9", {| images := Some [demo_image "a.png"; demo_image "b.png"] |});
         ("12", {| images := None |});
         ("15", {| images := Some [demo_image "c.png"] |}) ] |}.

(** A history record with a node called [__proto__]. *)
Definition demo_outputs_proto : PromptHistory :=
  {| outputs :=
       [ ("9", {| images := Some [demo_image "a.png"] |});
         ("__proto__", {| images := Some [demo_image "b.png"] |}) ] |}.

Definition demo_blob (k : nat) : list Byte.byte :=
  repeat Byte.x2a (S k).

Definition demo_replies : nat → blob_reply := λ k, BlobReply (demo_blob k).

Definition demo_replies_failing : nat → blob_reply :=
  λ k, if decide (k = 1) then BlobFailure (FetchError "fetch failed")
       else BlobReply (demo_blob k).

(** A fresh client that connects, disconnects and connects again. *)
Definition demo_reconnected : world :=
  default (new_world demo_client)
    (run (H := demo_runtime) (new_world demo_client)
       [EvConnect; EvDisconnect; EvConnect]).

(** A fresh client that has connected once. *)
Definition demo_connected : world :=
  default (new_world demo_client)
    (run (H := demo_runtime) (new_world demo_client) [EvConnect]).

(** Three calls of [connect] in a row by a fresh client, then the second
    goes on after its [await]. *)
Definition demo_overlapping : world :=
  default (new_world demo_client)
    (run (H := demo_runtime) (new_world demo_client)
       [EvConnect; EvConnect; EvConnect; EvConnectResume]).

(** The race up to the moment the history arrives: the channel is gone. *)
Definition demo_raced : world :=
  default (new_world demo_client)
    (run (H := demo_runtime) (new_world demo_client) (take 5 demo_race_events)).

(** A fresh client that never connects: [getResult] is called, then
    [getResult] again and [disconnect]; the replies to the posted jobs are
    still to come. *)
Definition demo_unanswered : world :=
  default (new_world demo_client)
    (run (H := demo_runtime) (new_world demo_client)
       [EvGetResult (GetResultOld demo_prompt);
        EvGetResult (GetResultOld demo_prompt); EvDisconnect]).

(** A client with no bearer token. *)
Definition demo_anonymous : client :=
  new_client "http://127.0.0.1:8188" "client-1" None.

(** * Properties *)

(** ** The listener registry *)

Lemma event_names_cases (name : string) :
  name ∈ event_names →
  name = "open" ∨ name = "close" ∨ name = "error" ∨ name = "message".
Proof.
  unfold event_names. rewrite !elem_of_cons, elem_of_nil. tauto.
Qed.

Lemma handlers_get_own (h : handlers) (name : string) :
  name ∈ event_names → ∃ l, handlers_get h name = EntryList l.
Proof.
  intros Hn. apply event_names_cases in Hn.
  destruct Hn as [-> | [-> | [-> | ->]]]; eexists; reflexivity.
Qed.

Lemma handlers_get_set_eq (h : handlers) (name : string) (l : list callback) :
  name ∈ event_names → handlers_get (handlers_set h name l) name = EntryList l.
Proof.
  intros Hn. apply event_names_cases in Hn.
  destruct Hn as [-> | [-> | [-> | ->]]]; reflexivity.
Qed.

Lemma handlers_get_set_ne (h : handlers) (name other : string)
    (l : list callback) :
  other ≠ name → handlers_get (handlers_set h name l) other = handlers_get h other.
Proof.
  intros Hne. unfold handlers_get, handlers_set.
  repeat (case_decide; subst; simpl; try congruence).
Qed.

Lemma filter_ne_keeps (cb : callback) (l : list callback) :
  (cb ∉ filter (λ x, x ≠ cb) l)
  ∧ (∀ cb', cb' ≠ cb → filter (λ x, x = cb') (filter (λ x, x ≠ cb) l)
                       = filter (λ x, x = cb') l).
Proof.
  split.
  - rewrite list_elem_of_filter. tauto.
  - intros cb' Hne. induction l as [|x l IH]; [reflexivity|].
    rewrite (filter_cons (λ x, x ≠ cb)).
    destruct (decide (x ≠ cb)) as [Hx|Hx].
    + rewrite !filter_cons. rewrite IH. reflexivity.
    + apply dec_stable in Hx. subst x. rewrite filter_cons.
      destruct (decide (cb = cb')); [congruence|]. exact IH.
Qed.

(** C5.  For each of the four event categories, [on] appends the callback to
    the category's list and leaves every callback bound before in place, and
    [off] removes the given callback reference and nothing else: every other
    callback of the category stays, as often and in the order it was bound.
    Neither touches the lists of the other categories. *)
Theorem on_appends_off_removes_given (h : handlers) (name : string)
    (cb : callback) :
  name ∈ event_names →
  ∃ l, handlers_get h name = EntryList l
    ∧ (∃ h', ws_on h name cb = Return h'
         ∧ handlers_get h' name = EntryList (l ++ [cb])
         ∧ (∀ other, other ≠ name → handlers_get h' other = handlers_get h other))
    ∧ (∃ h' l', ws_off h name cb = Return h'
         ∧ handlers_get h' name = EntryList l'
         ∧ (cb ∉ l')
         ∧ l' `sublist_of` l
         ∧ (∀ cb', cb' ≠ cb →
              filter (λ x, x = cb') l' = filter (λ x, x = cb') l)
         ∧ (∀ other, other ≠ name → handlers_get h' other = handlers_get h other)).
Proof.
  intros Hn. destruct (handlers_get_own h name Hn) as [l Hl].
  exists l. split; [exact Hl|]. split.
  - exists (handlers_set h name (l ++ [cb])). unfold ws_on. rewrite Hl.
    split; [reflexivity|]. split.
    + by apply handlers_get_set_eq.
    + intros other Hne. by apply handlers_get_set_ne.
  - exists (handlers_set h name (filter (λ x, x ≠ cb) l)),
           (filter (λ x, x ≠ cb) l).
    unfold ws_off. rewrite Hl. split; [reflexivity|]. split.
    { by apply handlers_get_set_eq. }
    destruct (filter_ne_keeps cb l) as [Hnot Hkeep].
    split; [exact Hnot|]. split; [apply sublist_filter|].
    split; [exact Hkeep|].
    intros other Hne. by apply handlers_get_set_ne.
Qed.

Lemma on_appends_off_removes_given_witness :
  "message" ∈ event_names
  ∧ ∃ l, handlers_get (Handlers [] [] [] [CbMessage 0; CbWait 0; CbUser 7])
           "message" = EntryList l
    ∧ (∃ h', ws_on (Handlers [] [] [] [CbMessage 0; CbWait 0; CbUser 7])
               "message" (CbWait 0) = Return h'
         ∧ handlers_get h' "message" = EntryList (l ++ [CbWait 0]))
    ∧ (∃ h' l', ws_off (Handlers [] [] [] [CbMessage 0; CbWait 0; CbUser 7])
                  "message" (CbWait 0) = Return h'
         ∧ handlers_get h' "message" = EntryList l'
         ∧ (CbWait 0 ∉ l')
         ∧ filter (λ x, x = CbUser 7) l' = filter (λ x, x = CbUser 7) l).
Proof.
  assert (Hn : "message" ∈ event_names) by (unfold event_names; repeat constructor).
  split; [exact Hn|].
  destruct (on_appends_off_removes_given
              (Handlers [] [] [] [CbMessage 0; CbWait 0; CbUser 7])
              "message" (CbWait 0) Hn)
    as (l & Hl & (h1 & Hon & Hon' & _) & (h2 & l' & Hoff & Hoff' & Hnot & _ & Hkeep & _)).
  exists l. split; [exact Hl|]. split.
  - exists h1. split; [exact Hon | exact Hon'].
  - exists h2, l'. split; [exact Hoff|]. split; [exact Hoff'|].
    split; [exact Hnot|]. apply Hkeep. discriminate.
Defined.

(** ** The connection target *)

Lemma substring_all (s : string) : String.substring 0 (String.length s) s = s.
Proof. induction s as [|a s IH]; simpl; [reflexivity | by rewrite IH]. Qed.

Lemma append_String (a : Ascii.ascii) (s t : string) :
  String a s +:+ t = String a (s +:+ t).
Proof. reflexivity. Qed.

Lemma append_empty (t : string) : "" +:+ t = t.
Proof. reflexivity. Qed.

Lemma append_assoc (s t u : string) : (s +:+ t) +:+ u = s +:+ (t +:+ u).
Proof.
  induction s as [|a s IH]; [reflexivity|].
  by rewrite !append_String, IH.
Qed.

Lemma append_empty_r (s : string) : s +:+ "" = s.
Proof.
  induction s as [|a s IH]; [reflexivity|]. by rewrite append_String, IH.
Qed.

Lemma prefix_empty (s : string) : String.prefix "" s = true.
Proof. destruct s; reflexivity. Qed.

Lemma replace_first_http (rest : string) :
  replace_first "http" "ws" ("http" +:+ rest) = "ws" +:+ rest.
Proof.
  rewrite !append_String, append_empty.
  cbn -[String.append].
  rewrite prefix_empty, Nat.sub_0_r, substring_all. reflexivity.
Qed.

(** C6.  For a base address with an HTTP scheme, the target of [connect] is
    the base with the scheme swapped ([http] to [ws], [https] to [wss]),
    followed by [/ws?clientId=] and the client identifier, and then by
    [&token=] and the token exactly when the session has a (non-empty)
    bearer token. *)
Theorem connect_url_form (c : client) (scheme socket_scheme rest : string) :
  (scheme = "http" ∧ socket_scheme = "ws")
  ∨ (scheme = "https" ∧ socket_scheme = "wss") →
  host c = scheme +:+ "://" +:+ rest →
  (∀ t, token c = Some t → t ≠ "" →
     connect_url c
     = socket_scheme +:+ "://" +:+ rest +:+ "/ws?clientId=" +:+ clientId c
       +:+ "&token=" +:+ t)
  ∧ (token c = None ∨ token c = Some "" →
     connect_url c
     = socket_scheme +:+ "://" +:+ rest +:+ "/ws?clientId=" +:+ clientId c).
Proof.
  intros Hs Hh.
  assert (Hr : replace_first "http" "ws" (host c)
               = socket_scheme +:+ "://" +:+ rest).
  { rewrite Hh. destruct Hs as [[-> ->] | [-> ->]].
    - apply (replace_first_http ("://" +:+ rest)).
    - apply (replace_first_http ("s://" +:+ rest)). }
  unfold connect_url. rewrite Hr. split.
  - intros t Ht Hne. rewrite Ht. simpl.
    rewrite bool_decide_eq_false_2 by done. simpl.
    by rewrite !append_assoc.
  - intros [Ht | Ht]; rewrite Ht; simpl;
      by rewrite !append_assoc, append_empty_r.
Qed.

Lemma connect_url_form_witness :
  connect_url demo_client
  = "ws://127.0.0.1:8188/ws?clientId=client-1&token=secret".
Proof.
  refine (proj1 (connect_url_form demo_client "http" "ws" "127.0.0.1:8188"
                   (or_introl (conj eq_refl eq_refl)) eq_refl)
            "secret" eq_refl _).
  discriminate.
Defined.

(** ** Closing the channel *)

(** C7.  With a channel open, [disconnect] closes it (once) and clears the
    reference; with none open it changes nothing.  It never raises, and a
    second [disconnect] right after the first is such a no-op. *)
Theorem disconnect_idempotent (W : world) :
  (∀ s, ws (the_client W) = Some s →
     ws (the_client (disconnect W).1) = None
     ∧ closed (disconnect W).1 = (closed W ++ [s])%list)
  ∧ (ws (the_client W) = None → (disconnect W).1 = W)
  ∧ (disconnect W).2 = Return ()
  ∧ disconnect (disconnect W).1 = ((disconnect W).1, Return ()).
Proof.
  unfold disconnect.
  destruct (ws (the_client W)) as [s|] eqn:Hws; simpl.
  - split; [intros ? [= <-]; done|]. split; [done|]. split; done.
  - rewrite Hws. split; [done|]. split; done.
Qed.

(** ** REST replies *)

Lemma js_in_error (json : jobject) :
  js_in "error" json = bool_decide (is_Some (assoc "error" json)).
Proof.
  unfold js_in, js_index. by destruct (assoc "error" json) as [v|].
Qed.

Lemma rest_result_Return `{Runtime} (r : fetch_reply) (json : jobject) :
  rest_result r = Return json ↔ r = Reply json ∧ assoc "error" json = None.
Proof.
  unfold rest_result. destruct r as [j|e].
  - rewrite js_in_error. destruct (assoc "error" j) as [v|] eqn:He; simpl.
    + split; [done|]. intros [[= ->] ?]. congruence.
    + split; [by intros [= ->]|]. by intros [[= ->] _].
  - split; [done|]. by intros [? _].
Qed.

(** C8.  Given the decoded body of the reply, [queuePrompt] raises an error
    carrying the serialised body when the body has an [error] entry, and
    returns the body otherwise; so it returns (the body with the job
    identifier) if and only if the body has no [error] entry. *)
Theorem queuePrompt_returns_iff_no_error `{Runtime} (c : client)
    (prompt : json) (json : jobject) :
  (is_Some (assoc "error" json) →
     (queuePrompt c prompt).2 (Reply json)
     = Throw (Error (JSON_stringify (JObj json))))
  ∧ (assoc "error" json = None →
     (queuePrompt c prompt).2 (Reply json) = Return json)
  ∧ (∀ queue, (queuePrompt c prompt).2 (Reply json) = Return queue
              ↔ assoc "error" json = None ∧ queue = json).
Proof.
  unfold queuePrompt, rest_result. simpl. rewrite js_in_error.
  destruct (assoc "error" json) as [v|] eqn:He.
  - rewrite bool_decide_eq_true_2 by (by eexists).
    split; [done|]. split; [done|]. intros queue. split; [done|].
    by intros [? _].
  - rewrite bool_decide_eq_false_2 by (by intros [? ?]).
    split; [by intros [? ?]|]. split; [done|]. intros queue.
    split; [by intros [= <-] | by intros [_ ->]].
Qed.

Lemma queuePrompt_returns_iff_no_error_witness :
  (queuePrompt (H := demo_runtime) demo_client demo_prompt).2
    (Reply [("error", JStr "invalid prompt"); ("node_errors", JObj [])])
  = Throw (Error (demo_stringify
                    (JObj [("error", JStr "invalid prompt");
                           ("node_errors", JObj [])])))
  ∧ (queuePrompt (H := demo_runtime) demo_client demo_prompt).2
      (Reply [("prompt_id", JStr "abc123")])
    = Return [("prompt_id", JStr "abc123")].
Proof.
  split.
  - apply (queuePrompt_returns_iff_no_error (H := demo_runtime)).
    by eexists.
  - by apply (queuePrompt_returns_iff_no_error (H := demo_runtime)).
Defined.

(** ** The bearer token on REST calls *)

Lemma header_get_set (k v : string) (hs : list (string * string)) :
  header_get k (header_set k v hs) = Some v.
Proof.
  induction hs as [|[k' v'] hs IH]; simpl.
  - by rewrite decide_True.
  - destruct (decide (k' = k)) as [->|Hne]; simpl.
    + by rewrite decide_True.
    + by rewrite decide_False.
Qed.

Lemma spread_authorization (base : list (string * string)) (v : string) :
  header_get "Authorization" (spread base [("Authorization", v)]) = Some v.
Proof. unfold spread. simpl. apply header_get_set. Qed.

(** In client.ts every REST method passes [getRequestHeaders()] on: with a
    (non-empty) token each request carries [Authorization: Bearer <token>]. *)
Lemma request_of_authorization `{Runtime} (c : client) (t : string)
    (r : rest_call) :
  token c = Some t → t ≠ "" →
  header_get "Authorization" (req_headers (request_of c r))
  = Some ("Bearer " +:+ t).
Proof.
  intros Ht Hne.
  assert (Hh : getRequestHeaders c = [("Authorization", "Bearer " +:+ t)]).
  { unfold getRequestHeaders. rewrite Ht. simpl.
    by rewrite bool_decide_eq_false_2. }
  destruct r; simpl; try destruct (getHistory_args _ _); simpl;
    rewrite Hh; first [apply spread_authorization | by simpl].
Qed.

(** In the revision of part_000 every REST method that goes through the
    private [fetch] carries the header as well. *)
Lemma Part000_fetch_authorization `{Runtime} (c : client) (t : string)
    (path : string) (o : Part000.options) (params : list (string * string)) :
  token c = Some t → t ≠ "" →
  header_get "Authorization" (req_headers (Part000.fetch c path o params))
  = Some ("Bearer " +:+ t).
Proof.
  intros Ht Hne. unfold Part000.fetch. rewrite Ht. simpl.
  rewrite bool_decide_eq_false_2 by done. simpl. apply spread_authorization.
Qed.

(** C9 (the defect).  In the revision of part_000, [getHistory] calls the
    global [fetch] with [{ method }] alone: its request has no
    [Authorization] header, whatever the token. *)
Theorem Part000_getHistory_omits_authorization `{Runtime} (c : client)
    (a : history_arg) (promptId : option string) :
  header_get "Authorization"
    (req_headers (Part000.request_of c (GetHistory a promptId))) = None.
Proof.
  simpl. by destruct (getHistory_args a promptId).
Qed.

(** ** One frame, callback by callback *)

Section Dispatch.
Context `{Runtime}.

Lemma settle_idemp (p q : promise) : settle (settle p q) q = settle p q.
Proof. by destruct p, q. Qed.

Lemma promise_of_settle_call (W : world) (w w' : nat) (q : promise) :
  promise_of (settle_call W w q) w'
  = (if decide (w = w') then (λ p, settle p q) <$> promise_of W w'
     else promise_of W w').
Proof.
  unfold promise_of, settle_call. simpl.
  destruct (decide (w = w')) as [->|Hne].
  - rewrite list_lookup_alter_eq. by destruct (calls W !! w').
  - by rewrite list_lookup_alter_ne.
Qed.

Lemma call_back_client (d : ws_data) (b : bool) (W : world) (cb : callback) :
  the_client (call_back d b W cb) = the_client W.
Proof.
  destruct cb; simpl; try done.
  destruct (calls W !! w) as [[fo pr [pid|] p]|]; try done.
  by destruct (onMessage pid d b).
Qed.

Lemma call_back_calls_other (d : ws_data) (b : bool) (W : world)
    (cb : callback) (w : nat) :
  cb ≠ CbWait w → calls (call_back d b W cb) !! w = calls W !! w.
Proof.
  intros Hne. destruct cb as [n|n|n|n|w'|u]; simpl; try done.
  destruct (calls W !! w') as [[fo pr [pid|] p]|]; try done.
  destruct (onMessage pid d b); simpl; try done.
  apply list_lookup_alter_ne. congruence.
Qed.

Lemma call_back_calls_same (d : ws_data) (b : bool) (W : world) (w : nat)
    (k : call) :
  calls W !! w = Some k →
  calls (call_back d b W (CbWait w)) !! w
  = Some (match call_promptId k with
          | Some promptId =>
              match onMessage promptId d b with
              | RejectWith err => call_settle (Rejected err) k
              | _ => k
              end
          | None => k
          end).
Proof.
  intros Hk. simpl. rewrite Hk. destruct k as [fo pr [pid|] p]; simpl; try done.
  destruct (onMessage pid d b); simpl; try done.
  by rewrite list_lookup_alter_eq, Hk.
Qed.

Lemma call_back_inflight (d : ws_data) (b : bool) (W : world) (cb : callback) :
  inflight (call_back d b W cb)
  = (inflight W
     ++ match cb with
        | CbWait w =>
            match calls W !! w with
            | Some (Call _ _ (Some promptId) _) =>
                match onMessage promptId d b with
                | AwaitHistory => [w]
                | _ => []
                end
            | _ => []
            end
        | _ => []
        end)%list.
Proof.
  destruct cb as [n|n|n|n|w|u]; simpl; try by rewrite app_nil_r.
  destruct (calls W !! w) as [[fo pr [pid|] p]|]; try by rewrite app_nil_r.
  destruct (onMessage pid d b); simpl; by rewrite ?app_nil_r.
Qed.

Lemma call_back_promptId (d : ws_data) (b : bool) (W : world) (cb : callback)
    (w : nat) :
  promptId_of (call_back d b W cb) w = promptId_of W w.
Proof.
  unfold promptId_of. destruct (decide (cb = CbWait w)) as [->|Hne].
  - destruct (calls W !! w) as [k|] eqn:Hk.
    + rewrite (call_back_calls_same d b W w k Hk).
      destruct k as [fo pr [pid|] p]; simpl; [|done].
      by destruct (onMessage pid d b).
    + simpl. rewrite Hk. simpl. by rewrite ?Hk.
  - by rewrite call_back_calls_other.
Qed.

(** What one callback does to the promise of call [w]. *)
Lemma call_back_promise (d : ws_data) (b : bool) (W : world) (cb : callback)
    (w : nat) :
  promise_of (call_back d b W cb) w
  = match promptId_of W w with
    | Some promptId =>
        match onMessage promptId d b with
        | RejectWith err =>
            if decide (cb = CbWait w)
            then (λ p, settle p (Rejected err)) <$> promise_of W w
            else promise_of W w
        | _ => promise_of W w
        end
    | None => promise_of W w
    end.
Proof.
  unfold promise_of, promptId_of. destruct (decide (cb = CbWait w)) as [->|Hne].
  - destruct (calls W !! w) as [k|] eqn:Hk.
    + rewrite (call_back_calls_same d b W w k Hk).
      destruct k as [fo pr [pid|] p]; simpl; [|done].
      destruct (onMessage pid d b); simpl; by rewrite ?decide_True.
    + simpl. rewrite Hk. simpl. by rewrite ?Hk.
  - rewrite call_back_calls_other by done.
    destruct (calls W !! w) as [[fo pr [pid|] p]|]; simpl; try done.
    destruct (onMessage pid d b); by rewrite ?decide_False.
Qed.

Lemma fold_call_back_client (d : ws_data) (b : bool) (l : list callback)
    (W : world) :
  the_client (fold_left (call_back d b) l W) = the_client W.
Proof.
  revert W. induction l as [|cb l IH]; intros W; simpl; [done|].
  by rewrite IH, call_back_client.
Qed.

Lemma fold_call_back_promptId (d : ws_data) (b : bool) (l : list callback)
    (W : world) (w : nat) :
  promptId_of (fold_left (call_back d b) l W) w = promptId_of W w.
Proof.
  revert W. induction l as [|cb l IH]; intros W; simpl; [done|].
  by rewrite IH, call_back_promptId.
Qed.

(** What a whole round of callbacks does to the promise of call [w]: it is
    rejected when the listener of [w] is among the callbacks and raises on
    the frame, and left alone otherwise. *)
Lemma fold_call_back_promise (d : ws_data) (b : bool) (l : list callback)
    (W : world) (w : nat) :
  promise_of (fold_left (call_back d b) l W) w
  = match promptId_of W w with
    | Some promptId =>
        match onMessage promptId d b with
        | RejectWith err =>
            if decide (CbWait w ∈ l)
            then (λ p, settle p (Rejected err)) <$> promise_of W w
            else promise_of W w
        | _ => promise_of W w
        end
    | None => promise_of W w
    end.
Proof.
  revert W. induction l as [|cb l IH]; intros W; simpl.
  - destruct (promptId_of W w) as [pid|]; [|done].
    by destruct (onMessage pid d b).
  - rewrite IH, call_back_promptId, call_back_promise.
    destruct (promptId_of W w) as [pid|]; [|done].
    destruct (onMessage pid d b) as [|err|]; try done.
    destruct (decide (cb = CbWait w)) as [->|Hne].
    + rewrite (decide_True (P := CbWait w ∈ CbWait w :: l)) by apply list_elem_of_here.
      destruct (promise_of W w) as [p|]; simpl; [|by case_decide].
      case_decide; simpl; [by rewrite settle_idemp | done].
    + destruct (decide (CbWait w ∈ l)) as [Hin|Hin].
      * rewrite decide_True; [done|]. by apply list_elem_of_further.
      * rewrite decide_False; [done|].
        rewrite elem_of_cons. intros [?|?]; congruence.
Qed.

Lemma fold_call_back_inflight (d : ws_data) (b : bool) (l : list callback)
    (W : world) (w : nat) :
  w ∈ inflight (fold_left (call_back d b) l W)
  ↔ w ∈ inflight W
    ∨ (CbWait w ∈ l
       ∧ ∃ promptId, promptId_of W w = Some promptId
                   ∧ onMessage promptId d b = AwaitHistory).
Proof.
  revert W. induction l as [|cb l IH]; intros W; simpl.
  - split; [by left|]. intros [?|[Hin _]]; [done|].
    by apply not_elem_of_nil in Hin.
  - rewrite IH, call_back_inflight, elem_of_app.
    setoid_rewrite call_back_promptId. setoid_rewrite elem_of_cons.
    split.
    + intros [[Hin|Hin]|[Hin Hp]]; [by left| |by right; split; [right|]].
      right. destruct cb as [n|n|n|n|w'|u]; try by apply not_elem_of_nil in Hin.
      unfold promptId_of.
      destruct (calls W !! w') as [[fo pr [pid|] p]|] eqn:Hk;
        try by apply not_elem_of_nil in Hin.
      destruct (onMessage pid d b) eqn:Hv; try by apply not_elem_of_nil in Hin.
      apply list_elem_of_singleton in Hin as ->.
      split; [by left|]. exists pid. by rewrite Hk.
    + intros [Hin|[[Heq|Hin] (pid & Hp & Hv)]]; [by left; left| |right; eauto].
      subst cb. left. right. unfold promptId_of in Hp.
      destruct (calls W !! w) as [[fo pr [pid'|] p]|] eqn:Hk; simplify_eq/=.
      rewrite Hv. apply list_elem_of_here.
Qed.

End Dispatch.

(** ** One event *)

Section Steps.
Context `{Runtime}.

Lemma ws_on_message_handlers (h h' : handlers) (name : string) (cb : callback) :
  ws_on h name cb = Return h' →
  handlers_message h' = handlers_message h
  ∨ (name = "message" ∧ handlers_message h' = (handlers_message h ++ [cb])%list).
Proof.
  unfold ws_on, handlers_get, handlers_set.
  repeat case_decide; subst; simpl; intros; simplify_eq/=; auto.
Qed.

Lemma ws_off_message_handlers (h h' : handlers) (name : string)
    (cb : callback) :
  ws_off h name cb = Return h' →
  handlers_message h' = handlers_message h
  ∨ (name = "message"
     ∧ handlers_message h' = filter (λ x, x ≠ cb) (handlers_message h)).
Proof.
  unfold ws_off, handlers_get, handlers_set.
  repeat case_decide; subst; simpl; intros; simplify_eq/=; auto.
Qed.

Lemma ws_on_message (h : handlers) (cb : callback) :
  ws_on h "message" cb
  = Return (Handlers (handlers_open h) (handlers_close h) (handlers_error h)
              (handlers_message h ++ [cb])).
Proof. reflexivity. Qed.

Lemma ws_off_message (h : handlers) (cb : callback) :
  ws_off h "message" cb
  = Return (Handlers (handlers_open h) (handlers_close h) (handlers_error h)
              (filter (λ x, x ≠ cb) (handlers_message h))).
Proof. reflexivity. Qed.

Lemma connect_handlers_message (h : handlers) (n : nat) :
  connect_handlers h n
  = Return (Handlers (handlers_open h ++ [CbOpen n])
              (handlers_close h ++ [CbClose n])
              (handlers_error h ++ [CbError n])
              (handlers_message h ++ [CbMessage n])).
Proof. reflexivity. Qed.

(** The executor attaches the listener exactly when a channel is held. *)
Lemma getResult_executor_spec (W : world) (w : nat) :
  calls (getResult_executor W w) = calls W
  ∧ inflight (getResult_executor W w) = inflight W
  ∧ ws (the_client (getResult_executor W w)) = ws (the_client W)
  ∧ message_handlers (getResult_executor W w)
    = (message_handlers W
       ++ match ws (the_client W) with
          | Some _ => [CbWait w]
          | None => []
          end)%list.
Proof.
  unfold getResult_executor, message_handlers.
  destruct (ws (the_client W)) as [s|] eqn:Hws; simpl.
  - by rewrite Hws.
  - by rewrite app_nil_r.
Qed.

Lemma getResult_resume_inv (W W' : world) (w : nat) (r : fetch_reply) :
  getResult_resume W w r = Some W' →
  ∃ fetchOption prompt,
    calls W !! w = Some (Call fetchOption prompt None Pending)
    ∧ ((∃ err, rest_result r = Throw err
               ∧ W' = settle_call W w (Rejected err))
       ∨ (∃ queue promptId,
            rest_result r = Return queue
            ∧ js_index queue "prompt_id" = JVal (JStr promptId)
            ∧ W' = getResult_executor
                     (with_calls W
                        (<[w := Call fetchOption prompt (Some promptId)
                                     Pending]> (calls W)))
                     w)).
Proof.
  unfold getResult_resume. intros Hr.
  destruct (calls W !! w) as [[fo pr [pid|] [| |]]|]; try done.
  exists fo, pr. split; [done|]. unfold queuePrompt in Hr. simpl in Hr.
  destruct (rest_result r) as [queue|err].
  - right.
    destruct (js_index queue "prompt_id") as [|[| | |pid| |]|] eqn:Hq; try done.
    exists queue, pid. by simplify_eq.
  - left. exists err. by simplify_eq.
Qed.

Lemma onMessage_resume_inv (W W' : world) (i : nat) (r : fetch_reply) :
  onMessage_resume W i r = Some W' →
  ∃ w promptId,
    inflight W !! i = Some w
    ∧ promptId_of W w = Some promptId
    ∧ inflight W' = delete i (inflight W)
    ∧ ws (the_client W') = ws (the_client W)
    ∧ calls W'
      = alter (call_settle
                 match rest_result r with
                 | Return historyRes =>
                     Resolved (js_index historyRes promptId)
                 | Throw err => Rejected err
                 end) w (calls W)
    ∧ message_handlers W'
      = match rest_result r, ws (the_client W) with
        | Return _, Some _ =>
            filter (λ x, x ≠ CbWait w) (message_handlers W)
        | _, _ => message_handlers W
        end.
Proof.
  unfold onMessage_resume, promptId_of, message_handlers. intros Hr.
  destruct (inflight W !! i) as [w|]; [|done].
  destruct (calls W !! w) as [[fo pr [pid|] p]|] eqn:Hk; try done.
  exists w, pid. split; [done|]. split; [by rewrite Hk|].
  unfold getHistory in Hr. simpl in Hr.
  destruct (rest_result r) as [h|err]; simpl in Hr.
  - destruct (ws (the_client W)) as [s|] eqn:Hws; simplify_eq/=; by rewrite ?Hws.
  - by simplify_eq/=.
Qed.

End Steps.

Section Invariants.
Context `{Runtime}.

Lemma promptId_of_alter_settle (W : world) (cs : list call) (q : promise)
    (w w' : nat) :
  promptId_of (with_calls W (alter (call_settle q) w cs)) w'
  = promptId_of (with_calls W cs) w'.
Proof.
  unfold promptId_of. simpl. destruct (decide (w = w')) as [->|Hne].
  - rewrite list_lookup_alter_eq. by destruct (cs !! w').
  - by rewrite list_lookup_alter_ne.
Qed.

Lemma connect_spec (W : world) :
  calls (connect W) = calls W
  ∧ inflight (connect W) = inflight W
  ∧ message_handlers (connect W)
    = (message_handlers W
       ++ match ws (the_client W) with
          | Some _ => []
          | None => [CbMessage (connects W)]
          end)%list.
Proof.
  unfold connect, disconnect, message_handlers.
  destruct (ws (the_client W)); simpl; by rewrite ?app_nil_r.
Qed.

Lemma connect_resume_spec (W W' : world) :
  connect_resume W = Some W' →
  calls W' = calls W
  ∧ inflight W' = inflight W
  ∧ message_handlers W'
    = (message_handlers W ++ [CbMessage (connects W)])%list.
Proof.
  unfold connect_resume. destruct (suspended W); [done|].
  intros [= <-]. done.
Qed.

Lemma disconnect_spec (W : world) :
  calls (disconnect W).1 = calls W
  ∧ inflight (disconnect W).1 = inflight W
  ∧ message_handlers (disconnect W).1 = message_handlers W.
Proof.
  unfold disconnect, message_handlers. by destruct (ws (the_client W)).
Qed.

(** What the events other than the three of [getResult]'s own life do to
    the calls, the fetches in flight and the message listeners. *)
Lemma step_outside (W W' : world) (e : event) :
  step W e = Some W' →
  match e with
  | EvQueueReply _ _ | EvFrame _ | EvHistoryReply _ _ => True
  | EvGetResult a =>
      calls W' = (calls W
                  ++ [Call (getResult_args a).1 (getResult_args a).2 None
                           Pending])%list
      ∧ inflight W' = inflight W
      ∧ message_handlers W' = message_handlers W
  | _ =>
      calls W' = calls W
      ∧ inflight W' = inflight W
      ∧ ∀ w, CbWait w ∈ message_handlers W' → CbWait w ∈ message_handlers W
  end.
Proof.
  intros Hs. destruct e as [| |name u|name cb|a p r|a|w r|d|i r|]; try done;
    simpl in Hs; simplify_eq.
  - destruct (connect_spec W) as (-> & -> & ->). split; [done|]. split; [done|].
    intros w. rewrite elem_of_app. intros [?|Hin]; [done|].
    destruct (ws (the_client W)); [by apply elem_of_nil in Hin|].
    by apply list_elem_of_singleton in Hin.
  - destruct (disconnect_spec W) as (-> & -> & ->). done.
  - unfold apply_handlers, message_handlers.
    destruct (ws_on _ _ _) as [h|err] eqn:Hon; [|done]. simpl.
    split; [done|]. split; [done|]. intros w.
    apply ws_on_message_handlers in Hon as [->|[_ ->]]; [done|].
    rewrite elem_of_app, list_elem_of_singleton. by intros [?|?].
  - unfold apply_handlers, message_handlers.
    destruct (ws_off _ _ _) as [h|err] eqn:Hoff; [|done]. simpl.
    split; [done|]. split; [done|]. intros w.
    apply ws_off_message_handlers in Hoff as [->|[_ ->]]; [done|].
    rewrite list_elem_of_filter. by intros [_ ?].
  - unfold message_handlers, getHistory. simpl.
    split; [done|]. split; [done|]. intros w.
    by destruct (rest_result r).
  - unfold getResult. by destruct (getResult_args a).
  - destruct (connect_resume_spec W W' Hs) as (-> & -> & ->).
    split; [done|]. split; [done|]. intros w.
    rewrite elem_of_app, list_elem_of_singleton. by intros [?|?].
Qed.

(** A job identifier, once known, stays. *)
Lemma step_promptId (W W' : world) (e : event) (w : nat) (promptId : string) :
  step W e = Some W' →
  promptId_of W w = Some promptId → promptId_of W' w = Some promptId.
Proof.
  intros Hs Hp. pose proof (step_outside W W' e Hs) as Ho.
  destruct e as [| |name u|name cb|a p r|a|w' r|d|i r|];
    try (unfold promptId_of in *; destruct Ho as (-> & _); done).
  - unfold promptId_of in *. destruct Ho as (-> & _).
    destruct (calls W !! w) as [k|] eqn:Hk; [|done].
    by rewrite (lookup_app_l_Some _ _ _ _ Hk).
  - simpl in Hs. apply getResult_resume_inv in Hs
      as (fo & pr & Hk & [(err & _ & ->)|(queue & pid & _ & _ & ->)]).
    + unfold settle_call. rewrite promptId_of_alter_settle. by destruct W.
    + unfold promptId_of in *.
      destruct (getResult_executor_spec
                  (with_calls W (<[w':=Call fo pr (Some pid) Pending]> (calls W)))
                  w') as (-> & _).
      simpl. destruct (decide (w' = w)) as [->|Hne].
      * by rewrite Hk in Hp.
      * by rewrite list_lookup_insert_ne.
  - simpl in Hs. simplify_eq. unfold onmessage.
    by rewrite fold_call_back_promptId.
  - simpl in Hs. apply onMessage_resume_inv in Hs
      as (w0 & pid & _ & _ & _ & _ & Hc & _).
    unfold promptId_of in *. rewrite Hc.
    destruct (decide (w0 = w)) as [->|Hne].
    + rewrite list_lookup_alter_eq. by destruct (calls W !! w).
    + by rewrite list_lookup_alter_ne.
Qed.

(** A job identifier comes from the reply to the posted job. *)
Lemma step_promptId_origin (W W' : world) (e : event) (w : nat)
    (promptId : string) :
  step W e = Some W' →
  promptId_of W' w = Some promptId →
  promptId_of W w = Some promptId
  ∨ ∃ queue,
      e = EvQueueReply w (Reply queue)
      ∧ assoc "error" queue = None
      ∧ js_index queue "prompt_id" = JVal (JStr promptId).
Proof.
  intros Hs Hp. pose proof (step_outside W W' e Hs) as Ho.
  destruct e as [| |name u|name cb|a p r|a|w' r|d|i r|];
    try (unfold promptId_of in *; destruct Ho as (<- & _); by left).
  - left. unfold promptId_of in *. destruct Ho as (Hc & _). rewrite Hc in Hp.
    destruct (calls W !! w) as [k|] eqn:Hk.
    + by rewrite (lookup_app_l_Some _ _ _ _ Hk) in Hp.
    + apply lookup_ge_None in Hk. rewrite lookup_app_r in Hp by done.
      destruct (w - length (calls W)) as [|n]; simpl in Hp; by simplify_eq.
  - simpl in Hs. apply getResult_resume_inv in Hs
      as (fo & pr & Hk & [(err & _ & ->)|(queue & pid & Hr & Hq & ->)]).
    + left. unfold settle_call in Hp. rewrite promptId_of_alter_settle in Hp.
      by destruct W.
    + unfold promptId_of in *.
      destruct (getResult_executor_spec
                  (with_calls W (<[w':=Call fo pr (Some pid) Pending]> (calls W)))
                  w') as (Hc & _).
      rewrite Hc in Hp. simpl in Hp.
      destruct (decide (w' = w)) as [->|Hne];
        [|left; by rewrite list_lookup_insert_ne in Hp].
      rewrite list_lookup_insert_eq in Hp by (by eapply lookup_lt_Some).
      simpl in Hp. simplify_eq. right.
      apply rest_result_Return in Hr as [-> He]. by exists queue.
  - simpl in Hs. simplify_eq. left. unfold onmessage in Hp.
    by rewrite fold_call_back_promptId in Hp.
  - simpl in Hs. apply onMessage_resume_inv in Hs
      as (w0 & pid & _ & _ & _ & _ & Hc & _).
    left. unfold promptId_of in *. rewrite Hc in Hp.
    destruct (decide (w0 = w)) as [->|Hne].
    + rewrite list_lookup_alter_eq in Hp. by destruct (calls W !! w).
    + by rewrite list_lookup_alter_ne in Hp.
Qed.

(** Which callbacks can be among the message listeners. *)
Lemma step_message_handlers (W W' : world) (e : event) (cb : callback) :
  step W e = Some W' →
  cb ∈ message_handlers W' →
  cb ∈ message_handlers W
  ∨ (∃ n, cb = CbMessage n) ∨ (∃ w, cb = CbWait w) ∨ (∃ u, cb = CbUser u).
Proof.
  intros Hs Hin.
  destruct e as [| |name u|name cb'|a p r|a|w' r|d|i r|]; simpl in Hs.
  - simplify_eq. destruct (connect_spec W) as (_ & _ & Hm). rewrite Hm in Hin.
    apply elem_of_app in Hin as [?|Hin]; [by left|].
    destruct (ws (the_client W)); [by apply elem_of_nil in Hin|].
    apply list_elem_of_singleton in Hin. right. left. by eexists.
  - simplify_eq. destruct (disconnect_spec W) as (_ & _ & Hm).
    rewrite Hm in Hin. by left.
  - simplify_eq. unfold apply_handlers, message_handlers in *.
    destruct (ws_on _ _ _) as [h|err] eqn:Hon; [|by left]. simpl in Hin.
    apply ws_on_message_handlers in Hon as [Hm|[_ Hm]]; rewrite Hm in Hin;
      [by left|].
    apply elem_of_app in Hin as [?|Hin]; [by left|].
    apply list_elem_of_singleton in Hin. right. right. right. by eexists.
  - simplify_eq. unfold apply_handlers, message_handlers in *.
    destruct (ws_off _ _ _) as [h|err] eqn:Hoff; [|by left]. simpl in Hin.
    apply ws_off_message_handlers in Hoff as [Hm|[_ Hm]]; rewrite Hm in Hin;
      [by left|].
    apply list_elem_of_filter in Hin as [_ ?]. by left.
  - simplify_eq. left. revert Hin. unfold message_handlers, getHistory. simpl.
    by destruct (rest_result r).
  - simplify_eq. left. revert Hin. unfold getResult.
    by destruct (getResult_args a).
  - apply getResult_resume_inv in Hs
      as (fo & pr & Hk & [(err & _ & ->)|(queue & pid & _ & _ & ->)]);
      [by left|].
    destruct (getResult_executor_spec
                (with_calls W (<[w':=Call fo pr (Some pid) Pending]> (calls W)))
                w') as (_ & _ & _ & Hm).
    rewrite Hm in Hin. apply elem_of_app in Hin as [?|Hin]; [by left|].
    simpl in Hin. destruct (ws (the_client W));
      [|by apply not_elem_of_nil in Hin].
    apply list_elem_of_singleton in Hin. right. right. left. by eexists.
  - simplify_eq. left. revert Hin. unfold onmessage, message_handlers.
    by rewrite fold_call_back_client.
  - apply onMessage_resume_inv in Hs as (w0 & pid & _ & _ & _ & _ & _ & Hm).
    left. rewrite Hm in Hin.
    destruct (rest_result r); [|done].
    destruct (ws (the_client W)); [|done].
    by apply list_elem_of_filter in Hin as [_ ?].
  - destruct (connect_resume_spec W W' Hs) as (_ & _ & Hm). rewrite Hm in Hin.
    apply elem_of_app in Hin as [?|Hin]; [by left|].
    apply list_elem_of_singleton in Hin. right. left. by eexists.
Qed.

(** The listener of call [w] enters the registry only through the executor
    of that call, which runs once, when the job identifier arrives. *)
Lemma step_listener (W W' : world) (e : event) (w : nat) :
  step W e = Some W' →
  CbWait w ∈ message_handlers W' →
  CbWait w ∈ message_handlers W
  ∨ (∃ r, e = EvQueueReply w r)
    ∧ promptId_of W w = None ∧ promise_of W w = Some Pending
    ∧ ws (the_client W) ≠ None.
Proof.
  intros Hs Hin. pose proof (step_outside W W' e Hs) as Ho.
  destruct e as [| |name u|name cb|a p r|a|w' r|d|i r|];
    try (destruct Ho as (_ & _ & Ho); left; by apply Ho).
  - destruct Ho as (_ & _ & <-). by left.
  - simpl in Hs. apply getResult_resume_inv in Hs
      as (fo & pr & Hk & [(err & _ & ->)|(queue & pid & _ & _ & ->)]).
    + by left.
    + destruct (getResult_executor_spec
                  (with_calls W (<[w':=Call fo pr (Some pid) Pending]> (calls W)))
                  w') as (_ & _ & _ & Hm).
      rewrite Hm in Hin. apply elem_of_app in Hin as [Hin|Hin]; [by left|].
      simpl in Hin. destruct (ws (the_client W)) eqn:Hws;
        [|by apply not_elem_of_nil in Hin].
      apply list_elem_of_singleton in Hin. simplify_eq. right.
      split; [by eexists|]. unfold promptId_of, promise_of. by rewrite Hk.
  - simpl in Hs. simplify_eq. left. revert Hin.
    unfold onmessage, message_handlers. by rewrite fold_call_back_client.
  - simpl in Hs. apply onMessage_resume_inv in Hs
      as (w0 & pid & _ & _ & _ & _ & _ & Hm).
    left. rewrite Hm in Hin.
    destruct (rest_result r); [|done].
    destruct (ws (the_client W)); [|done].
    by apply list_elem_of_filter in Hin as [_ ?].
Qed.

(** A fetch of the history for call [w] is in flight only after a frame on
    which the listener of [w] decided to ask for it. *)
Lemma step_inflight (W W' : world) (e : event) (w : nat) :
  step W e = Some W' →
  w ∈ inflight W' →
  w ∈ inflight W
  ∨ ∃ d promptId,
      e = EvFrame d ∧ CbWait w ∈ message_handlers W
      ∧ promptId_of W w = Some promptId
      ∧ onMessage promptId d (is_blob d) = AwaitHistory.
Proof.
  intros Hs Hin. pose proof (step_outside W W' e Hs) as Ho.
  destruct e as [| |name u|name cb|a p r|a|w' r|d|i r|];
    try (destruct Ho as (_ & <- & _); by left).
  - simpl in Hs. apply getResult_resume_inv in Hs
      as (fo & pr & Hk & [(err & _ & ->)|(queue & pid & _ & _ & ->)]).
    + by left.
    + destruct (getResult_executor_spec
                  (with_calls W (<[w':=Call fo pr (Some pid) Pending]> (calls W)))
                  w') as (_ & Hi & _).
      rewrite Hi in Hin. by left.
  - simpl in Hs. simplify_eq. unfold onmessage in Hin.
    apply fold_call_back_inflight in Hin as [Hin|(Hin & pid & Hp & Hv)];
      [by left|].
    right. by exists d, pid.
  - simpl in Hs. apply onMessage_resume_inv in Hs
      as (w0 & pid & _ & _ & Hi & _).
    left. rewrite Hi in Hin.
    by eapply list_elem_of_delete_inv.
Qed.

(** Calls are never forgotten. *)
Lemma step_promise_exists (W W' : world) (e : event) (w : nat) (p : promise) :
  step W e = Some W' →
  promise_of W w = Some p → is_Some (promise_of W' w).
Proof.
  intros Hs Hp. pose proof (step_outside W W' e Hs) as Ho.
  unfold promise_of in *.
  destruct (calls W !! w) as [k|] eqn:Hk; [|done].
  destruct e as [| |name u|name cb|a p0 r|a|w' r|d|i r|];
    try (destruct Ho as (-> & _); rewrite Hk; by eexists).
  - destruct Ho as (-> & _). rewrite (lookup_app_l_Some _ _ _ _ Hk). by eexists.
  - simpl in Hs. apply getResult_resume_inv in Hs
      as (fo & pr & Hk' & [(err & _ & ->)|(queue & pid & _ & _ & ->)]).
    + apply fmap_is_Some, lookup_lt_is_Some. simpl.
      rewrite length_alter. by eapply lookup_lt_Some.
    + destruct (getResult_executor_spec
                  (with_calls W (<[w':=Call fo pr (Some pid) Pending]> (calls W)))
                  w') as (-> & _).
      apply fmap_is_Some, lookup_lt_is_Some. simpl.
      rewrite length_insert. by eapply lookup_lt_Some.
  - simpl in Hs. simplify_eq. fold (promise_of (onmessage W d) w).
    unfold onmessage. rewrite fold_call_back_promise.
    unfold promise_of. rewrite Hk.
    destruct (promptId_of W w) as [pid|]; [|by eexists].
    destruct (onMessage pid d (is_blob d)); try by eexists.
    case_decide; by eexists.
  - simpl in Hs. apply onMessage_resume_inv in Hs
      as (w0 & pid & _ & _ & _ & _ & Hc & _).
    rewrite Hc. apply fmap_is_Some, lookup_lt_is_Some.
    rewrite length_alter. by eapply lookup_lt_Some.
Qed.

(** How the promise of call [w] can change in one event. *)
Lemma step_promise (W W' : world) (e : event) (w : nat) (p' : promise) :
  step W e = Some W' →
  promise_of W' w = Some p' →
  promise_of W w = Some p'
  ∨ (promise_of W w = None ∧ p' = Pending ∧ ∃ a, e = EvGetResult a)
  ∨ (promise_of W w = Some Pending
     ∧ ((∃ r err, e = EvQueueReply w r ∧ promptId_of W w = None
                  ∧ rest_result r = Throw err ∧ p' = Rejected err)
        ∨ (∃ d promptId err,
             e = EvFrame d ∧ CbWait w ∈ message_handlers W
             ∧ promptId_of W w = Some promptId
             ∧ onMessage promptId d (is_blob d) = RejectWith err
             ∧ p' = Rejected err)
        ∨ (∃ i r promptId,
             e = EvHistoryReply i r ∧ inflight W !! i = Some w
             ∧ promptId_of W w = Some promptId
             ∧ ((∃ err, rest_result r = Throw err ∧ p' = Rejected err)
                ∨ (∃ historyRes,
                     rest_result r = Return historyRes
                     ∧ p' = Resolved (js_index historyRes promptId)
                     ∧ (ws (the_client W) ≠ None →
                        CbWait w ∉ message_handlers W')))))).
Proof.
  intros Hs Hp'. pose proof (step_outside W W' e Hs) as Ho.
  destruct e as [| |name u|name cb|a p0 r|a|w' r|d|i r|];
    try (unfold promise_of in *; destruct Ho as (<- & _); by left).
  - unfold promise_of in *. destruct Ho as (Hc & _). rewrite Hc in Hp'.
    destruct (calls W !! w) as [k|] eqn:Hk.
    + left. by rewrite (lookup_app_l_Some _ _ _ _ Hk) in Hp'.
    + right. left. split; [done|]. split; [|by eexists].
      apply lookup_ge_None in Hk. rewrite lookup_app_r in Hp' by done.
      destruct (w - length (calls W)) as [|n]; simpl in Hp'; by simplify_eq.
  - simpl in Hs. apply getResult_resume_inv in Hs
      as (fo & pr & Hk & [(err & Hr & ->)|(queue & pid & _ & _ & ->)]).
    + rewrite promise_of_settle_call in Hp'.
      destruct (decide (w' = w)) as [->|Hne]; [|by left].
      right. right. unfold promise_of, promptId_of in *. rewrite Hk in *.
      simpl in *. split; [done|]. left. exists r, err. by simplify_eq.
    + left. unfold promise_of in *.
      destruct (getResult_executor_spec
                  (with_calls W (<[w':=Call fo pr (Some pid) Pending]> (calls W)))
                  w') as (Hc & _).
      rewrite Hc in Hp'. simpl in Hp'.
      destruct (decide (w' = w)) as [->|Hne].
      * rewrite list_lookup_insert_eq in Hp' by (by eapply lookup_lt_Some).
        by rewrite Hk.
      * by rewrite list_lookup_insert_ne in Hp'.
  - simpl in Hs. simplify_eq. unfold onmessage in Hp'.
    rewrite fold_call_back_promise in Hp'.
    destruct (promptId_of W w) as [pid|] eqn:Hpid; [|by left].
    destruct (onMessage pid d (is_blob d)) as [|err|] eqn:Hv; try by left.
    case_decide as Hin; [|by left].
    destruct (promise_of W w) as [[|v|e0]|] eqn:Hp; simplify_eq/=; try by left.
    right. right. split; [done|]. right. left. by exists d, pid, err.
  - simpl in Hs. apply onMessage_resume_inv in Hs
      as (w0 & pid & Hi & Hpid & _ & _ & Hc & Hm).
    unfold promise_of in Hp'. rewrite Hc in Hp'.
    destruct (decide (w0 = w)) as [->|Hne];
      [|left; unfold promise_of; by rewrite list_lookup_alter_ne in Hp'].
    rewrite list_lookup_alter_eq in Hp'. unfold promise_of.
    destruct (calls W !! w) as [[fo pr pid' [|v|e0]]|] eqn:Hk;
      simplify_eq/=; try by left.
    right. right. split; [done|]. right. right. exists i, r, pid.
    split; [done|]. split; [done|]. split; [done|].
    destruct (rest_result r) as [h|err] eqn:Hr.
    + right. exists h. split; [done|]. split; [done|].
      intros Hws. rewrite Hm. destruct (ws (the_client W)); [|done].
      rewrite list_elem_of_filter. by intros [? _].
    + left. by exists err.
Qed.

End Invariants.

(** ** The correlator's verdict on a frame *)

Section Verdicts.
Context `{Runtime}.

Lemma strict_eq_string_true (v : jsval) (s : string) :
  strict_eq_string v s = true ↔ v = JVal (JStr s).
Proof.
  destruct v as [|[| | |t| |]|]; simpl; try (split; [done|by intros [=]]).
  rewrite bool_decide_eq_true. split; [by intros ->|by intros [= ->]].
Qed.

Lemma onMessage_decode_failure (promptId s : string) (err : exn) :
  JSON_parse s = Throw err →
  onMessage promptId (DataText s) false = RejectWith err.
Proof.
  intros Hp. unfold onMessage, onMessage_try. simpl. by rewrite Hp.
Qed.

Lemma strict_eq_string_refl (s : string) :
  strict_eq_string (JVal (JStr s)) s = true.
Proof. by apply strict_eq_string_true. Qed.

Lemma bind_Return {A B : Type} (a : A) (f : A → result B) :
  (Return a ≫= f) = f a.
Proof. reflexivity. Qed.

Lemma onMessage_completion (promptId : string) (d : ws_data) :
  onMessage promptId d (is_blob d) = AwaitHistory ↔ completion_event promptId d.
Proof.
  unfold completion_event, onMessage, onMessage_try. split.
  - destruct (is_blob d); [done|]. intros Hv. split; [done|].
    destruct (JSON_parse (data_toString d)) as [message|] eqn:Hp; [|done].
    rewrite bind_Return in Hv.
    destruct (js_field (JVal message) f_type) as [ty|] eqn:Hty; [|done].
    rewrite bind_Return in Hv.
    destruct (strict_eq_string ty "executing") eqn:Hex; [|done].
    apply strict_eq_string_true in Hex as ->.
    destruct (js_field (JVal message) f_data) as [messageData|] eqn:Hd; [|done].
    rewrite bind_Return in Hv.
    destruct (js_field messageData f_node) as [node|] eqn:Hn; [|done].
    rewrite bind_Return in Hv.
    destruct (truthy node) eqn:Ht; [done|]. cbn [negb] in Hv.
    destruct (js_field messageData f_prompt_id) as [done_id|] eqn:Hi; [|done].
    rewrite bind_Return in Hv.
    destruct (template_substitution done_id) as [[]|]; [|done].
    rewrite bind_Return in Hv.
    destruct (strict_eq_string done_id promptId) eqn:Heq; [|done].
    apply strict_eq_string_true in Heq as ->.
    by exists message, messageData, node.
  - intros (-> & message & messageData & node & Hp & Hty & Hd & Hn & Ht & Hi).
    rewrite Hp, bind_Return, Hty, bind_Return, strict_eq_string_refl.
    rewrite Hd, bind_Return, Hn, bind_Return, Ht. cbn [negb].
    rewrite Hi, bind_Return. cbn [template_substitution toString_throws].
    by rewrite bind_Return, strict_eq_string_refl.
Qed.

Lemma onMessage_running_or_other (promptId : string) (d : ws_data) :
  running_or_other_event promptId d →
  onMessage promptId d (is_blob d) = Ignore.
Proof.
  unfold running_or_other_event, onMessage, onMessage_try.
  intros (-> & message & ty & Hp & Hty & Hor).
  rewrite Hp, bind_Return, Hty, bind_Return.
  destruct Hor as [Hne|(messageData & node & -> & Hd & Hn & Hor)].
  - destruct (strict_eq_string ty "executing") eqn:Heq; [|done].
    by apply strict_eq_string_true in Heq.
  - rewrite strict_eq_string_refl, Hd, bind_Return, Hn, bind_Return.
    destruct (truthy node) eqn:Ht; cbn [negb]; [done|].
    destruct Hor as [?|(other & Hi & Hne)]; [done|].
    rewrite Hi, bind_Return. cbn [template_substitution toString_throws].
    rewrite bind_Return.
    destruct (strict_eq_string (JVal (JStr other)) promptId) eqn:Heq; [|done].
    apply strict_eq_string_true in Heq. congruence.
Qed.

End Verdicts.

(** ** Runs *)

Section Runs.
Context `{Runtime}.

(** Once the job identifier of call [w] is known, a listener that is not in
    the registry never comes back. *)
Lemma run_listener_out (W W' : world) (es : list event) (w : nat)
    (promptId : string) :
  run W es = Some W' →
  promptId_of W w = Some promptId → CbWait w ∉ message_handlers W →
  promptId_of W' w = Some promptId ∧ CbWait w ∉ message_handlers W'.
Proof.
  revert W. induction es as [|e es IH]; intros W Hr Hp Hout; simpl in Hr.
  - by simplify_eq.
  - destruct (step W e) as [W1|] eqn:Hs; [|done].
    eapply IH; [done|by eapply step_promptId|].
    intros Hin. apply (step_listener W W1 e w Hs) in Hin as [?|(_ & Hn & _)];
      [done|congruence].
Qed.

(** A call whose listener is not registered and that has no fetch in flight
    stays pending. *)
Lemma run_unattached_pending (W W' : world) (es : list event) (w : nat)
    (promptId : string) :
  run W es = Some W' →
  promptId_of W w = Some promptId →
  CbWait w ∉ message_handlers W → w ∉ inflight W →
  promise_of W w = Some Pending →
  promise_of W' w = Some Pending.
Proof.
  revert W. induction es as [|e es IH]; intros W Hr Hp Hout Hfl Hpend;
    simpl in Hr.
  - by simplify_eq.
  - destruct (step W e) as [W1|] eqn:Hs; [|done].
    eapply IH; [done|by eapply step_promptId| | |].
    + intros Hin.
      apply (step_listener W W1 e w Hs) in Hin as [?|(_ & Hn & _)];
        [done|congruence].
    + intros Hin.
      by apply (step_inflight W W1 e w Hs) in Hin as [?|(? & ? & _ & ? & _)].
    + destruct (step_promise_exists W W1 e w Pending Hs Hpend) as [p' Hp'].
      destruct (step_promise W W1 e w p' Hs Hp')
        as [Hq|[(Hq & _)|(_ & [Hq|[Hq|Hq]])]]; [congruence..| | |].
      * destruct Hq as (? & ? & _ & ? & _). congruence.
      * by destruct Hq as (? & ? & ? & _ & ? & _).
      * destruct Hq as (i & ? & ? & _ & Hi & _).
        by apply list_elem_of_lookup_2 in Hi.
Qed.

Lemma run_message_handlers (W W' : world) (es : list event) :
  run W es = Some W' →
  (∀ cb, cb ∈ message_handlers W →
         (∃ n, cb = CbMessage n) ∨ (∃ w, cb = CbWait w) ∨ (∃ u, cb = CbUser u)) →
  ∀ cb, cb ∈ message_handlers W' →
        (∃ n, cb = CbMessage n) ∨ (∃ w, cb = CbWait w) ∨ (∃ u, cb = CbUser u).
Proof.
  revert W. induction es as [|e es IH]; intros W Hr Hk; simpl in Hr.
  - by simplify_eq.
  - destruct (step W e) as [W1|] eqn:Hs; [|done].
    apply (IH W1 Hr). intros cb Hin.
    apply (step_message_handlers W W1 e cb Hs) in Hin as [Hin|Hin]; auto.
Qed.

(** Among the message listeners of a reachable world are only the
    transport's callbacks, the listeners of [getResult] and the caller's. *)
Lemma reachable_message_handlers (W : world) (cb : callback) :
  reachable W →
  cb ∈ message_handlers W →
  (∃ n, cb = CbMessage n) ∨ (∃ w, cb = CbWait w) ∨ (∃ u, cb = CbUser u).
Proof.
  intros (h & id & t & es & Hr). revert cb.
  apply (run_message_handlers _ _ _ Hr). intros cb Hin; simpl in Hin.
  by apply not_elem_of_nil in Hin.
Qed.

Lemma emit_nothing (W : world) : emit W [] = W.
Proof. destruct W. unfold emit. simpl. by rewrite app_nil_r. Qed.

(** A frame flagged as binary goes through the listeners without a trace. *)
Lemma fold_call_back_binary (d : ws_data) (l : list callback) (W : world) :
  (∀ cb, cb ∈ l →
         (∃ n, cb = CbMessage n) ∨ (∃ w, cb = CbWait w) ∨ (∃ u, cb = CbUser u)) →
  fold_left (call_back d true) l W = W.
Proof.
  induction l as [|cb l IH]; intros Hk; simpl; [done|].
  assert (Hcb : call_back d true W cb = W).
  { destruct (Hk cb (list_elem_of_here _ _)) as [[n ->]|[[w ->]|[u ->]]]; simpl.
    - apply emit_nothing.
    - by destruct (calls W !! w) as [[fo pr [pid|] p]|].
    - done. }
  rewrite Hcb. apply IH. intros cb' Hin. apply Hk. by apply list_elem_of_further.
Qed.

End Runs.

(** ** The completion correlator *)

Section Correlation.
Context `{Runtime}.

(** C3.  While call [w] waits with its listener registered, a text frame
    that fails to decode rejects the promise of [w] with the decode error,
    at once (no history is asked for), and the registry of message listeners
    is left as it was: the listener is still in it. *)
Theorem decode_failure_rejects_and_stays_attached (W : world) (w : nat)
    (promptId s : string) (err : exn) :
  promptId_of W w = Some promptId →
  promise_of W w = Some Pending →
  CbWait w ∈ message_handlers W →
  JSON_parse s = Throw err →
  step W (EvFrame (DataText s)) = Some (onmessage W (DataText s))
  ∧ promise_of (onmessage W (DataText s)) w = Some (Rejected err)
  ∧ message_handlers (onmessage W (DataText s)) = message_handlers W
  ∧ CbWait w ∈ message_handlers (onmessage W (DataText s))
  ∧ (w ∈ inflight (onmessage W (DataText s)) → w ∈ inflight W).
Proof.
  intros Hpid Hp Hin Herr. split; [done|].
  pose proof (onMessage_decode_failure promptId s err Herr) as Hv.
  assert (Hm : message_handlers (onmessage W (DataText s)) = message_handlers W).
  { unfold onmessage, message_handlers. by rewrite fold_call_back_client. }
  split.
  { unfold onmessage. rewrite fold_call_back_promise, Hpid. cbn [is_blob].
    rewrite Hv, decide_True by done. by rewrite Hp. }
  split; [done|]. split; [by rewrite Hm|].
  unfold onmessage. rewrite fold_call_back_inflight.
  intros [?|(_ & pid & Hpid' & Hv')]; [done|].
  cbn [is_blob] in Hv'. congruence.
Qed.

Lemma step_traced (W W' : world) (e : event) (es : list event) :
  step W e = Some W' → traced es W → traced (es ++ [e]) W'.
Proof.
  intros Hs Ht w. split; [|split].
  - intros pid Hpid.
    apply (step_promptId_origin W W' e w pid Hs) in Hpid
      as [Hpid|(queue & -> & He & Hq)].
    + destruct (proj1 (Ht w) pid Hpid) as (queue & Hin & He & Hq).
      exists queue. split; [apply elem_of_app; by left|done].
    + exists queue. split; [|done].
      apply elem_of_app. right. apply list_elem_of_here.
  - intros Hin.
    apply (step_inflight W W' e w Hs) in Hin
      as [Hin|(d & pid & -> & _ & Hpid & Hv)].
    + destruct (proj1 (proj2 (Ht w)) Hin) as (pid & d & Hpid & Hd & Hv).
      exists pid, d. split; [by eapply step_promptId|].
      split; [|done]. apply elem_of_app. by left.
    + exists pid, d. split; [by eapply step_promptId|].
      split; [|done]. apply elem_of_app. right. apply list_elem_of_here.
  - intros v Hv.
    destruct (step_promise W W' e w _ Hs Hv)
      as [Hq|[(_ & ? & _)|(_ & [Hq|[Hq|Hq]])]]; [|done| | |].
    + destruct (proj2 (proj2 (Ht w)) v Hq)
        as (pid & d & i & h & Hpid & Hd & Hw & Hi & He & ->).
      exists pid, d, i, h. split; [by eapply step_promptId|].
      split; [apply elem_of_app; by left|]. split; [done|].
      split; [apply elem_of_app; by left|]. done.
    + by destruct Hq as (? & ? & _ & _ & _ & ?).
    + by destruct Hq as (? & ? & ? & _ & _ & _ & _ & ?).
    + destruct Hq as (i & r & pid & -> & Hi & Hpid
                      & [(? & _ & ?)|(h & Hr & [= ->] & _)]); [done|].
      apply rest_result_Return in Hr as [-> He].
      destruct (proj1 (proj2 (Ht w)) (list_elem_of_lookup_2 _ _ _ Hi))
        as (pid' & d & Hpid' & Hd & Hw).
      assert (pid' = pid) as -> by congruence.
      exists pid, d, i, h. split; [by eapply step_promptId|].
      split; [apply elem_of_app; by left|]. split; [done|].
      split; [apply elem_of_app; right; apply list_elem_of_here|]. done.
Qed.

Lemma run_traced (W W' : world) (es0 es : list event) :
  run W es = Some W' → traced es0 W → traced (es0 ++ es) W'.
Proof.
  revert W es0. induction es as [|e es IH]; intros W es0 Hr Ht; simpl in Hr.
  - simplify_eq. by rewrite app_nil_r.
  - destruct (step W e) as [W1|] eqn:Hs; [|done].
    rewrite (cons_middle e es0 es), app_assoc.
    apply (IH W1); [done|]. by eapply step_traced.
Qed.

(** C1.  In every run of a fresh client, a resolved promise of [getResult]
    was resolved from a history reply, asked for on a frame taken for text
    (its data no [Blob]) that decoded to an ['executing'] event with no
    current node and with the job identifier [queuePrompt] returned for this
    call, and its value is the entry of that reply under the job identifier.  Conversely such a frame
    makes the registered listener ask for the history, and the reply then
    resolves the pending promise with that entry.  Frames that decode to
    another kind of event, that still name a node, or that name another job
    leave the promise as it is and ask for nothing. *)
Theorem getResult_resolves_on_completion_only :
  (∀ h id t es W w v,
     run (new_world (new_client h id t)) es = Some W →
     promise_of W w = Some (Resolved v) →
     ∃ queue promptId d i historyRes,
       EvQueueReply w (Reply queue) ∈ es
       ∧ js_index queue "prompt_id" = JVal (JStr promptId)
       ∧ EvFrame d ∈ es ∧ completion_event promptId d
       ∧ EvHistoryReply i (Reply historyRes) ∈ es
       ∧ assoc "error" historyRes = None
       ∧ v = js_index historyRes promptId)
  ∧ (∀ W w promptId d,
       promptId_of W w = Some promptId →
       CbWait w ∈ message_handlers W →
       completion_event promptId d →
       w ∈ inflight (onmessage W d))
  ∧ (∀ W i w promptId historyRes,
       inflight W !! i = Some w →
       promptId_of W w = Some promptId →
       promise_of W w = Some Pending →
       assoc "error" historyRes = None →
       ∃ W', step W (EvHistoryReply i (Reply historyRes)) = Some W'
             ∧ promise_of W' w
               = Some (Resolved (js_index historyRes promptId)))
  ∧ (∀ W w promptId d,
       promptId_of W w = Some promptId →
       running_or_other_event promptId d →
       promise_of (onmessage W d) w = promise_of W w
       ∧ (w ∈ inflight (onmessage W d) → w ∈ inflight W)).
Proof.
  split; [|split; [|split]].
  - intros h id t es W w v Hr Hv.
    assert (Ht : traced [] (new_world (new_client h id t))).
    { intros w'. split; [done|].
      split; [intros Hin; by apply not_elem_of_nil in Hin|done]. }
    pose proof (run_traced _ _ _ _ Hr Ht) as Ht'. simpl in Ht'.
    destruct (proj2 (proj2 (Ht' w)) v Hv)
      as (pid & d & i & hist & Hpid & ? & Hw & ? & ? & ?).
    destruct (proj1 (Ht' w) pid Hpid) as (queue & ? & _ & ?).
    exists queue, pid, d, i, hist. by rewrite <- onMessage_completion.
  - intros W w pid d Hpid Hin Hc. unfold onmessage.
    apply fold_call_back_inflight. right. split; [done|].
    exists pid. by rewrite onMessage_completion.
  - intros W i w pid hist Hi Hpid Hp He. simpl.
    destruct (onMessage_resume W i (Reply hist)) as [W'|] eqn:Hs.
    + exists W'. split; [done|].
      apply onMessage_resume_inv in Hs
        as (w' & pid' & Hi' & Hpid' & _ & _ & Hc & _).
      assert (w' = w) as -> by congruence.
      assert (pid' = pid) as -> by congruence.
      rewrite (proj2 (rest_result_Return (Reply hist) hist) (conj eq_refl He))
        in Hc.
      unfold promise_of in *. rewrite Hc, list_lookup_alter_eq.
      destruct (calls W !! w) as [k|]; [|done]. simpl in *.
      injection Hp as ->. done.
    + exfalso. unfold onMessage_resume, promptId_of in *. rewrite Hi in Hs.
      destruct (calls W !! w) as [[fo pr [pid'|] p]|]; simplify_eq/=.
      unfold getHistory in Hs. simpl in Hs.
      destruct (rest_result (Reply hist)); simpl in Hs; by repeat case_match.
  - intros W w pid d Hpid Hev.
    pose proof (onMessage_running_or_other pid d Hev) as Hv.
    unfold onmessage. split.
    + by rewrite fold_call_back_promise, Hpid, Hv.
    + rewrite fold_call_back_inflight.
      intros [?|(_ & pid' & Hpid' & Hv')]; [done|]. congruence.
Qed.

End Correlation.

Lemma decode_failure_rejects_and_stays_attached_witness :
  promise_of (onmessage (H := demo_runtime) demo_listening (DataText "}{")) 0
  = Some (Rejected (SyntaxError "Unexpected token"))
  ∧ CbWait 0 ∈ message_handlers
                 (onmessage (H := demo_runtime) demo_listening (DataText "}{")).
Proof.
  destruct (decode_failure_rejects_and_stays_attached (H := demo_runtime)
              demo_listening 0 "abc123" "}{" (SyntaxError "Unexpected token"))
    as (_ & Hp & _ & Hin & _).
  - reflexivity.
  - reflexivity.
  - vm_compute. repeat constructor.
  - reflexivity.
  - split; [exact Hp | exact Hin].
Defined.

Lemma getResult_resolves_on_completion_only_witness :
  ∃ queue promptId d i historyRes,
    EvQueueReply 0 (Reply queue) ∈ demo_trace
    ∧ js_index queue "prompt_id" = JVal (JStr promptId)
    ∧ EvFrame d ∈ demo_trace
    ∧ completion_event (H := demo_runtime) promptId d
    ∧ EvHistoryReply i (Reply historyRes) ∈ demo_trace
    ∧ assoc "error" historyRes = None
    ∧ JVal (JObj [("outputs", JObj [])]) = js_index historyRes promptId.
Proof.
  apply (proj1 (getResult_resolves_on_completion_only (H := demo_runtime))
           "http://127.0.0.1:8188" "client-1" (Some "secret")
           demo_trace demo_resolved 0).
  - vm_compute. reflexivity.
  - vm_compute. reflexivity.
Defined.

(** The race from a fresh client: when the caller disconnects while the
    history is being fetched, the promise resolves and the listener stays in
    the registry; a frame on the next channel runs it again (it asks for the
    history once more), though the promise keeps its value. *)
Lemma resolved_listener_can_stay_registered :
  (run (H := demo_runtime) (new_world demo_client) demo_race_events
   ≫= λ W, Some (promise_of W 0, message_handlers W))
  = Some (Some (Resolved (JVal (JObj [("outputs", JObj [])]))),
          [CbMessage 0; CbWait 0])
  ∧ (run (H := demo_runtime) (new_world demo_client)
       (demo_race_events ++ demo_race_afterwards)
     ≫= λ W, Some (promise_of W 0, inflight W, length (requests W)))
    = Some (Some (Resolved (JVal (JObj [("outputs", JObj [])]))), [0], 3).
Proof. split; vm_compute; reflexivity. Qed.

(** C10, as stated, fails: with no channel held and an error body in reply
    to the posted job, the promise of [getResult] is rejected; and when the
    caller connects before the reply to the posted job arrives, the listener
    is attached and the promise resolves. *)
Lemma getResult_without_channel_can_reject :
  ws (the_client (new_world demo_client)) = None
  ∧ (run (H := demo_runtime) (new_world demo_client)
       [ EvGetResult (GetResultOld demo_prompt);
         EvQueueReply 0 (Reply [("error", JStr "invalid prompt")]) ]
     ≫= λ W, promise_of W 0)
    = Some (Rejected
              (Error (demo_stringify
                        (JObj [("error", JStr "invalid prompt")]))))
  ∧ (run (H := demo_runtime) (new_world demo_client)
       [ EvGetResult (GetResultOld demo_prompt);
         EvConnect;
         EvQueueReply 0 (Reply [("prompt_id", JStr "abc123")]);
         EvFrame (DataText text_done);
         EvHistoryReply 0 (Reply demo_history) ]
     ≫= λ W, promise_of W 0)
    = Some (Resolved (JVal (JObj [("outputs", JObj [])]))).
Proof. repeat split; vm_compute; reflexivity. Qed.

Lemma request_of_authorization_witness :
  header_get "Authorization"
    (req_headers (request_of (H := demo_runtime) demo_client
                    (GetHistory (HString "abc123") None)))
  = Some "Bearer secret".
Proof.
  apply (request_of_authorization (H := demo_runtime) demo_client "secret"
           (GetHistory (HString "abc123") None) eq_refl).
  discriminate.
Defined.

(** * Further properties *)

(** ** Requests of the two revisions *)

Lemma header_get_set_ne (k k' v : string) (hs : list (string * string)) :
  k ≠ k' → header_get k (header_set k' v hs) = header_get k hs.
Proof.
  intros Hne. induction hs as [|[k0 v0] hs IH]; simpl.
  - by rewrite decide_False.
  - destruct (decide (k0 = k')) as [->|Hk]; simpl.
    + by rewrite !decide_False.
    + by rewrite IH.
Qed.

Lemma getRequestHeaders_anonymous `{Runtime} (c : client) :
  truthy_string (token c) = false → getRequestHeaders c = [].
Proof. unfold getRequestHeaders. by intros ->. Qed.

(** Without a (non-empty) token no request of either revision carries an
    [Authorization] header. *)
Theorem requests_without_token_are_anonymous `{Runtime} (c : client)
    (r : rest_call) :
  truthy_string (token c) = false →
  header_get "Authorization" (req_headers (request_of c r)) = None
  ∧ header_get "Authorization" (req_headers (Part000.request_of c r)) = None.
Proof.
  intros Ht. pose proof (getRequestHeaders_anonymous c Ht) as Hh. split.
  - destruct r; simpl; try destruct (getHistory_args _ _); simpl;
      by rewrite Hh.
  - destruct r; simpl; try destruct (getHistory_args _ _);
      unfold Part000.fetch; simpl; by rewrite ?Ht.
Qed.

Lemma requests_without_token_are_anonymous_witness :
  header_get "Authorization"
    (req_headers (request_of (H := demo_runtime) demo_anonymous
                    (QueuePrompt demo_prompt))) = None
  ∧ header_get "Authorization"
      (req_headers (Part000.request_of (H := demo_runtime) demo_anonymous
                      (QueuePrompt demo_prompt))) = None.
Proof.
  exact (requests_without_token_are_anonymous (H := demo_runtime)
           demo_anonymous (QueuePrompt demo_prompt) eq_refl).
Defined.

(** The private [fetch] helper of part_000 builds, for every REST method but
    [getHistory] and [getQueue], exactly the request client.ts builds with
    [getUrl] and [getRequestHeaders]; for [getHistory] the two differ in the
    headers alone. *)
Theorem revisions_build_the_same_requests `{Runtime} (c : client)
    (r : rest_call) :
  match r with
  | GetQueue _ => True
  | GetHistory _ _ =>
      req_url (Part000.request_of c r) = req_url (request_of c r)
      ∧ req_method (Part000.request_of c r) = req_method (request_of c r)
      ∧ req_body (Part000.request_of c r) = req_body (request_of c r)
      ∧ req_headers (Part000.request_of c r) = []
  | _ => Part000.request_of c r = request_of c r
  end.
Proof.
  destruct r; simpl; try destruct (getHistory_args _ _); try done;
    unfold Part000.fetch, getUrl, getRequestHeaders; simpl;
    by destruct (truthy_string (token c)).
Qed.

Lemma length_append (s t : string) :
  String.length (s +:+ t) = String.length s + String.length t.
Proof.
  induction s as [|a s IH]; [done|]. rewrite append_String. simpl. by rewrite IH.
Qed.

(** [getQueue] of part_000 hands the whole address to the helper, which
    prefixes the base address once more: the URL is the one of client.ts
    behind a second copy of the base address, never the same. *)
Theorem Part000_getQueue_repeats_the_base_address `{Runtime} (c : client)
    (fetchOption : option fetch_option) :
  req_url (Part000.request_of c (GetQueue fetchOption))
  = host c +:+ req_url (request_of c (GetQueue fetchOption))
  ∧ (host c ≠ "" →
     req_url (Part000.request_of c (GetQueue fetchOption))
     ≠ req_url (request_of c (GetQueue fetchOption))).
Proof.
  assert (Hu : req_url (Part000.request_of c (GetQueue fetchOption))
               = host c +:+ req_url (request_of c (GetQueue fetchOption))).
  { simpl. unfold Part000.fetch. simpl. by rewrite append_empty_r. }
  split; [done|]. intros Hne Heq. rewrite Hu in Heq.
  apply (f_equal String.length) in Heq. rewrite length_append in Heq.
  destruct (host c) as [|a s]; [done|]. simpl in Heq. lia.
Qed.

Lemma Part000_getQueue_repeats_the_base_address_witness :
  req_url (Part000.request_of (H := demo_runtime) demo_client (GetQueue None))
  = "http://127.0.0.1:8188http://127.0.0.1:8188/queue"
  ∧ req_url (Part000.request_of (H := demo_runtime) demo_client (GetQueue None))
    ≠ req_url (request_of (H := demo_runtime) demo_client (GetQueue None)).
Proof.
  split.
  - exact (proj1 (Part000_getQueue_repeats_the_base_address
                    (H := demo_runtime) demo_client None)).
  - apply (proj2 (Part000_getQueue_repeats_the_base_address
                    (H := demo_runtime) demo_client None)).
    discriminate.
Defined.

(** The helper of part_000 passes the caller's headers on: every header
    other than [Authorization] is as the caller gave it, the caller's own
    [Authorization] survives only when the session has no token, and the
    method and the body are the caller's. *)
Theorem Part000_fetch_keeps_caller_headers `{Runtime} (c : client)
    (path : string) (o : Part000.options) (params : list (string * string)) :
  (∀ k, k ≠ "Authorization" →
        header_get k (req_headers (Part000.fetch c path o params))
        = header_get k (Part000.opt_headers o))
  ∧ (truthy_string (token c) = false →
     req_headers (Part000.fetch c path o params) = Part000.opt_headers o)
  ∧ (∀ t, token c = Some t → t ≠ "" →
          header_get "Authorization"
            (req_headers (Part000.fetch c path o params))
          = Some ("Bearer " +:+ t))
  ∧ req_method (Part000.fetch c path o params) = Part000.opt_method o
  ∧ req_body (Part000.fetch c path o params) = Part000.opt_body o.
Proof.
  unfold Part000.fetch. simpl. split; [|split; [|split; [|done]]].
  - intros k Hne. destruct (truthy_string (token c)); [|done].
    unfold spread. simpl. by apply header_get_set_ne.
  - by intros ->.
  - intros t Ht Hne. rewrite Ht. simpl.
    rewrite bool_decide_eq_false_2 by done. simpl. apply spread_authorization.
Qed.

(** ** The two call styles of [getHistory] *)

(** [getHistory(id)] and [getHistory(undefined, id)] issue the same request:
    to [/history/id] of the base address for a non-empty [id], and to
    [/history] for the empty string, as a call without arguments does.  With
    a request override the address and the method are the override's. *)
Theorem getHistory_call_styles `{Runtime} (c : client) (id : string) :
  request_of c (GetHistory (HString id) None)
  = request_of c (GetHistory HUndefined (Some id))
  ∧ (id ≠ "" →
     req_url (request_of c (GetHistory (HString id) None))
     = host c +:+ "/history/" +:+ id)
  ∧ request_of c (GetHistory (HString "") None)
    = request_of c (GetHistory HUndefined None)
  ∧ req_url (request_of c (GetHistory HUndefined None)) = host c +:+ "/history"
  ∧ (∀ fo, id ≠ "" →
       req_url (request_of c (GetHistory (HOption fo) (Some id)))
       = fo_host fo +:+ "/history/" +:+ id
       ∧ req_method (request_of c (GetHistory (HOption fo) (Some id)))
         = Some (fo_method fo)).
Proof.
  split; [done|]. split; [|split; [done|split]].
  - intros Hne. simpl. unfold history_url. simpl.
    by rewrite bool_decide_eq_false_2.
  - done.
  - intros fo Hne. simpl. unfold history_url. simpl.
    by rewrite bool_decide_eq_false_2.
Qed.

(** ** More on the listener registry *)

(** For a name that is none of the four event categories, [on] and [off]
    leave the registry alone, or raise when the name is a member of
    [Object.prototype]: no fifth category ever appears. *)
Theorem on_off_unknown_event (h : handlers) (name : string) (cb : callback) :
  name ∉ event_names →
  (name ∈ Object_prototype_members →
   ws_on h name cb = Throw TypeError ∧ ws_off h name cb = Throw TypeError)
  ∧ (name ∉ Object_prototype_members →
     ws_on h name cb = Return h ∧ ws_off h name cb = Return h).
Proof.
  intros Hn.
  assert (Hg : handlers_get h name
               = if decide (name ∈ Object_prototype_members)
                 then EntryInherited else EntryUndefined).
  { unfold handlers_get.
    destruct (decide (name = "open")) as [->|_];
      [exfalso; apply Hn; unfold event_names; repeat constructor|].
    destruct (decide (name = "close")) as [->|_];
      [exfalso; apply Hn; unfold event_names; repeat constructor|].
    destruct (decide (name = "error")) as [->|_];
      [exfalso; apply Hn; unfold event_names; repeat constructor|].
    destruct (decide (name = "message")) as [->|_];
      [exfalso; apply Hn; unfold event_names; repeat constructor|].
    done. }
  unfold ws_on, ws_off. rewrite Hg.
  split; intros Hm; [by rewrite decide_True|by rewrite decide_False].
Qed.

Lemma on_off_unknown_event_witness :
  ws_on no_handlers "toString" (CbUser 0) = Throw TypeError
  ∧ ws_on no_handlers "progress" (CbUser 0) = Return no_handlers.
Proof.
  split.
  - apply (on_off_unknown_event no_handlers "toString" (CbUser 0)).
    + unfold event_names. rewrite !elem_of_cons, elem_of_nil.
      intros [?|[?|[?|[?|[]]]]]; discriminate.
    + unfold Object_prototype_members. repeat constructor.
  - apply (on_off_unknown_event no_handlers "progress" (CbUser 0)).
    + unfold event_names. rewrite !elem_of_cons, elem_of_nil.
      intros [?|[?|[?|[?|[]]]]]; discriminate.
    + unfold Object_prototype_members. rewrite !elem_of_cons, elem_of_nil.
      intros H. repeat (destruct H as [H|H]; [discriminate|]). done.
Defined.

Lemma filter_ne_absent (cb : callback) (l : list callback) :
  cb ∉ l → filter (λ x, x ≠ cb) l = l.
Proof.
  induction l as [|x l IH]; [done|]. rewrite not_elem_of_cons.
  intros [Hne Hl]. rewrite filter_cons, decide_True by done. by rewrite IH.
Qed.

Lemma filter_ne_snoc (cb : callback) (l : list callback) :
  filter (λ x, x ≠ cb) (l ++ [cb])%list = filter (λ x, x ≠ cb) l.
Proof.
  rewrite filter_app, filter_cons, decide_False by (by intros ?).
  by rewrite filter_nil, app_nil_r.
Qed.

Lemma handlers_set_get (h : handlers) (name : string) (l : list callback) :
  handlers_get h name = EntryList l → handlers_set h name l = h.
Proof.
  unfold handlers_get, handlers_set. destruct h.
  repeat case_decide; simpl; intros; by simplify_eq.
Qed.

Lemma handlers_set_set (h : handlers) (name : string) (l l' : list callback) :
  handlers_set (handlers_set h name l) name l' = handlers_set h name l'.
Proof. unfold handlers_set. by repeat case_decide. Qed.

Lemma handlers_get_is_list (h : handlers) (name : string) (l : list callback) :
  handlers_get h name = EntryList l → name ∈ event_names.
Proof.
  unfold handlers_get, event_names.
  destruct (decide (name = "open")) as [->|_]; [intros _; repeat constructor|].
  destruct (decide (name = "close")) as [->|_]; [intros _; repeat constructor|].
  destruct (decide (name = "error")) as [->|_]; [intros _; repeat constructor|].
  destruct (decide (name = "message")) as [->|_];
    [intros _; repeat constructor|].
  by case_decide.
Qed.

(** Binding a callback that was not bound to the event and unbinding it
    again gives the registry back as it was.  One [off] undoes any number of
    [on]s of the same callback, and a second [off] changes nothing. *)
Theorem on_then_off_round_trip (h : handlers) (name : string) (cb : callback)
    (l : list callback) :
  handlers_get h name = EntryList l →
  (cb ∉ l → (h' ← ws_on h name cb; ws_off h' name cb) = Return h)
  ∧ (h1 ← ws_on h name cb; h2 ← ws_on h1 name cb; ws_off h2 name cb)
    = ws_off h name cb
  ∧ (h' ← ws_off h name cb; ws_off h' name cb) = ws_off h name cb.
Proof.
  intros Hl. pose proof (handlers_get_is_list h name l Hl) as Hn.
  unfold ws_on, ws_off. rewrite Hl. rewrite !bind_Return.
  rewrite !handlers_get_set_eq by done. rewrite !bind_Return.
  rewrite !handlers_get_set_eq by done. rewrite !handlers_set_set.
  rewrite !filter_ne_snoc. split; [|split].
  - intros Hout. rewrite filter_ne_absent by done.
    by rewrite handlers_set_get.
  - done.
  - rewrite (filter_ne_absent cb (filter _ l)); [done|].
    rewrite list_elem_of_filter. by intros [? _].
Qed.

Lemma on_then_off_round_trip_witness :
  (h' ← ws_on (Handlers [] [] [] [CbMessage 0]) "message" (CbWait 0);
   ws_off h' "message" (CbWait 0))
  = Return (Handlers [] [] [] [CbMessage 0]).
Proof.
  refine (proj1 (on_then_off_round_trip (Handlers [] [] [] [CbMessage 0])
                   "message" (CbWait 0) [CbMessage 0] eq_refl) _).
  rewrite list_elem_of_singleton. discriminate.
Defined.

(** ** The scheme swap *)

Lemma substring_0_0 (s : string) : String.substring 0 0 s = "".
Proof. by destruct s. Qed.

Lemma replace_first_index (pat rep s : string) :
  replace_first pat rep s
  = match String.index 0 pat s with
    | None => s
    | Some n =>
        String.substring 0 n s +:+ rep
        +:+ String.substring (n + String.length pat)
              (String.length s - (n + String.length pat)) s
    end.
Proof.
  induction s as [|a s IH].
  - destruct pat as [|b pat]; simpl; done.
  - cbn [String.index replace_first].
    destruct (String.prefix pat (String a s)) eqn:Hp.
    + by rewrite substring_0_0.
    + destruct (String.index 0 pat s) as [n|].
      * rewrite IH. simpl. by rewrite append_String.
      * by rewrite IH.
Qed.

(** The target of [connect] for any base address, against the library's
    [String.index]: a base address in which the text [http] does not occur
    is used as it is, and otherwise exactly the first occurrence of [http]
    is replaced by [ws], wherever in the address it is. *)
Theorem connect_url_swaps_first_occurrence (c : client) :
  connect_url c
  = match String.index 0 "http" (host c) with
    | None => host c
    | Some n =>
        String.substring 0 n (host c) +:+ "ws"
        +:+ String.substring (n + 4) (String.length (host c) - (n + 4))
              (host c)
    end
    +:+ "/ws?clientId=" +:+ clientId c
    +:+ (if truthy_string (token c) then "&token=" +:+ default "" (token c)
         else "").
Proof. unfold connect_url. by rewrite replace_first_index. Qed.

(** ** Channels *)

Section Channels.
Context `{Runtime}.

Lemma call_back_sockets (d : ws_data) (b : bool) (W : world) (cb : callback) :
  closed (call_back d b W cb) = closed W
  ∧ connects (call_back d b W cb) = connects W.
Proof.
  destruct cb; simpl; try done.
  destruct (calls W !! w) as [[fo pr [pid|] p]|]; try done.
  by destruct (onMessage pid d b).
Qed.

Lemma fold_call_back_sockets (d : ws_data) (b : bool) (l : list callback)
    (W : world) :
  closed (fold_left (call_back d b) l W) = closed W
  ∧ connects (fold_left (call_back d b) l W) = connects W.
Proof.
  revert W. induction l as [|cb l IH]; intros W; simpl; [done|].
  destruct (IH (call_back d b W cb)) as [-> ->]. apply call_back_sockets.
Qed.

(** Only [connect], its resumption and [disconnect] touch the channel, and
    nothing changes the address, the client identifier or the token. *)
Lemma step_channel (W W' : world) (e : event) :
  step W e = Some W' →
  host (the_client W') = host (the_client W)
  ∧ clientId (the_client W') = clientId (the_client W)
  ∧ token (the_client W') = token (the_client W)
  ∧ match e with
    | EvConnect => W' = connect W
    | EvDisconnect => W' = (disconnect W).1
    | EvConnectResume => connect_resume W = Some W'
    | _ => closed W' = closed W ∧ connects W' = connects W
           ∧ ws (the_client W') = ws (the_client W)
    end.
Proof.
  intros Hs. destruct e as [| |name u|name cb|a p r|a|w r|d|i r|];
    simpl in Hs.
  - simplify_eq. unfold connect, disconnect.
    by destruct (ws (the_client W)).
  - simplify_eq. unfold disconnect. by destruct (ws (the_client W)).
  - simplify_eq. unfold apply_handlers. by destruct (ws_on _ _ _).
  - simplify_eq. unfold apply_handlers. by destruct (ws_off _ _ _).
  - simplify_eq. unfold getHistory. simpl. by destruct (rest_result r).
  - simplify_eq. unfold getResult. by destruct (getResult_args a).
  - apply getResult_resume_inv in Hs
      as (fo & pr & Hk & [(err & _ & ->)|(queue & pid & _ & _ & ->)]);
      [done|].
    clear Hk. destruct W as [c ks fl em rq cl n m].
    unfold getResult_executor, with_calls. cbn.
    destruct (ws c) eqn:Hws; [|done].
    by destruct (ws_on _ _ _).
  - simplify_eq. unfold onmessage.
    rewrite fold_call_back_client.
    by destruct (fold_call_back_sockets d (is_blob d) (message_handlers W) W)
      as [-> ->].
  - unfold onMessage_resume in Hs.
    destruct (inflight W !! i) as [w|]; [|done].
    destruct (calls W !! w) as [[fo pr [pid|] p]|]; try done.
    unfold getHistory in Hs. simpl in Hs.
    destruct (rest_result r); simpl in Hs.
    + destruct (ws (the_client W)) eqn:Hws; simplify_eq/=; by rewrite ?Hws.
    + by simplify_eq/=.
  - pose proof Hs as Hs'. unfold connect_resume in Hs'.
    destruct (suspended W); [done|]. by simplify_eq.
Qed.

Lemma connect_url_same (c c' : client) :
  host c' = host c → clientId c' = clientId c → token c' = token c →
  connect_url c' = connect_url c.
Proof. unfold connect_url. by intros -> -> ->. Qed.

Lemma connect_open_sockets (W : world) :
  sockets (connect_open W)
  = (closed W ++ [Socket (connects W) (connect_url (the_client W))])%list
  ∧ connects (connect_open W) = S (connects W).
Proof. done. Qed.

Lemma connect_sockets (W : world) :
  (ws (the_client W) = None ∧ connect W = connect_open W)
  ∨ (sockets (connect W) = sockets W ∧ connects (connect W) = connects W).
Proof.
  unfold connect, sockets, disconnect.
  destruct (ws (the_client W)) as [s|] eqn:Hws; [right|by left].
  simpl. by rewrite app_nil_r.
Qed.

Lemma disconnect_sockets (W : world) :
  sockets (disconnect W).1 = sockets W
  ∧ connects (disconnect W).1 = connects W.
Proof.
  unfold sockets, disconnect.
  destruct (ws (the_client W)) as [s|] eqn:Hws; simpl; by rewrite ?Hws, ?app_nil_r.
Qed.

(** What [connect_open] keeps of a numbering of the sockets: those closed so
    far, and the new socket with a number of its own. *)
Lemma connect_open_numbering (W : world) :
  NoDup (socket_id <$> sockets W) →
  Forall (λ s, socket_id s < connects W
               ∧ socket_url s = connect_url (the_client W)) (sockets W) →
  NoDup (socket_id <$> sockets (connect_open W))
  ∧ Forall (λ s, socket_id s < connects (connect_open W)
                 ∧ socket_url s = connect_url (the_client W))
      (sockets (connect_open W)).
Proof.
  intros Hnd Hall. destruct (connect_open_sockets W) as [-> ->].
  unfold sockets in Hnd, Hall. rewrite fmap_app in Hnd.
  apply NoDup_app in Hnd as (Hnd & _ & _).
  apply Forall_app in Hall as [Hall _]. split.
  - rewrite fmap_app. apply NoDup_app. split; [done|]. split.
    + intros n Hn Hin. apply list_elem_of_singleton in Hin. simpl in Hin.
      apply list_elem_of_fmap in Hn as (s & -> & Hs).
      rewrite Forall_forall in Hall. destruct (Hall s Hs) as [Hlt _]. lia.
    + apply NoDup_singleton.
  - apply Forall_app. split.
    + eapply Forall_impl; [exact Hall|]. simpl. intros s [? ?]. split; [lia|done].
    + apply Forall_singleton. simpl. split; [lia|done].
Qed.

Lemma run_sockets (W W' : world) (es : list event) :
  run W es = Some W' →
  NoDup (socket_id <$> sockets W) →
  Forall (λ s, socket_id s < connects W
               ∧ socket_url s = connect_url (the_client W)) (sockets W) →
  NoDup (socket_id <$> sockets W')
  ∧ Forall (λ s, socket_id s < connects W'
                 ∧ socket_url s = connect_url (the_client W')) (sockets W').
Proof.
  revert W. induction es as [|e es IH]; intros W Hr Hnd Hall; simpl in Hr.
  - by simplify_eq.
  - destruct (step W e) as [W1|] eqn:Hs; [|done].
    destruct (step_channel W W1 e Hs) as (Hh & Hc & Ht & He).
    pose proof (connect_url_same _ _ Hh Hc Ht) as Hu.
    assert (Hgoal : NoDup (socket_id <$> sockets W1)
                    ∧ Forall (λ s, socket_id s < connects W1
                                   ∧ socket_url s = connect_url (the_client W))
                        (sockets W1)).
    { destruct e; try (destruct He as (Hcl & Hn & Hws);
                       unfold sockets in *; by rewrite Hcl, Hn, Hws).
      - subst W1. destruct (connect_sockets W) as [[_ ->]|[-> ->]]; [|done].
        by apply connect_open_numbering.
      - subst W1. by destruct (disconnect_sockets W) as [-> ->].
      - unfold connect_resume in He. destruct (suspended W) as [|n]; [done|].
        simplify_eq.
        exact (connect_open_numbering
                 (World (the_client W) (calls W) (inflight W) (emitted W)
                    (requests W) (closed W) (connects W) n) Hnd Hall). }
    destruct Hgoal as [Hnd1 Hall1]. apply (IH W1 Hr Hnd1). by rewrite Hu.
Qed.

(** In every reachable world the sockets the client has closed and the one
    it holds are distinct sockets, each created by the client for the same
    target: so no socket is closed twice, and the one held has not been
    closed.  A socket can be left open all the same: a call of [connect]
    that goes on after its [await] while the client holds a socket again
    replaces that socket and does not close it. *)
Theorem channels_close_at_most_once (W : world) :
  reachable W →
  NoDup (socket_id <$> sockets W)
  ∧ Forall (λ s, socket_id s < connects W
                 ∧ socket_url s = connect_url (the_client W)) (sockets W)
  ∧ NoDup (closed W)
  ∧ (∀ s, ws (the_client W) = Some s →
          (s ∉ closed W)
          ∧ (0 < suspended W →
             ∃ W', step W EvConnectResume = Some W'
                   ∧ closed W' = closed W
                   ∧ ws (the_client W') ≠ Some s)).
Proof.
  intros (h & id & t & es & Hr).
  destruct (run_sockets _ _ _ Hr) as [Hid Hall]; [apply NoDup_nil_2|done|].
  split; [done|]. split; [done|].
  assert (Hnd : NoDup (sockets W)) by by apply (NoDup_fmap_1 socket_id).
  unfold sockets in Hnd, Hall. apply NoDup_app in Hnd as (Hc & Hdis & _).
  split; [done|]. intros s Hws. rewrite Hws in Hdis, Hall. split.
  - intros Hin. apply (Hdis s Hin). apply list_elem_of_here.
  - intros Hsusp. simpl. unfold connect_resume.
    destruct (suspended W) as [|n]; [lia|]. eexists. split; [done|].
    split; [done|]. simpl. intros [= <-].
    apply Forall_app in Hall as [_ Hall].
    apply Forall_singleton in Hall as [Hlt _]. simpl in Hlt. lia.
Qed.

End Channels.

Lemma channels_close_at_most_once_witness :
  NoDup (socket_id <$> sockets demo_overlapping)
  ∧ socket_id <$> sockets demo_overlapping = [0; 2]
  ∧ connects demo_overlapping = 3
  ∧ closed demo_overlapping
    = [Socket 0 "ws://127.0.0.1:8188/ws?clientId=client-1&token=secret"]
  ∧ ws (the_client demo_overlapping)
    = Some (Socket 2 "ws://127.0.0.1:8188/ws?clientId=client-1&token=secret").
Proof.
  split.
  - apply (channels_close_at_most_once (H := demo_runtime) demo_overlapping).
    exists "http://127.0.0.1:8188", "client-1", (Some "secret"),
           [EvConnect; EvConnect; EvConnect; EvConnectResume].
    vm_compute. reflexivity.
  - split; [vm_compute; reflexivity|]. split; [vm_compute; reflexivity|].
    split; vm_compute; reflexivity.
Defined.

(** ** Frames handed on to the caller *)

Section Forwarding.
Context `{Runtime}.

Lemma call_back_emitted (d : ws_data) (b : bool) (W : world) (cb : callback) :
  emitted (call_back d b W cb) = (emitted W ++ forwarded d b cb)%list.
Proof.
  destruct cb; simpl; rewrite ?app_nil_r; try done.
  destruct (calls W !! w) as [[fo pr [pid|] p]|]; try done.
  by destruct (onMessage pid d b).
Qed.

Lemma fold_call_back_emitted (d : ws_data) (b : bool) (l : list callback)
    (W : world) :
  emitted (fold_left (call_back d b) l W)
  = (emitted W ++ flat_map (forwarded d b) l)%list.
Proof.
  revert W. induction l as [|cb l IH]; intros W; simpl.
  - by rewrite app_nil_r.
  - by rewrite IH, call_back_emitted, <- app_assoc.
Qed.

Lemma flat_map_forwarded (d : ws_data) (l : list callback) :
  (∀ cb, cb ∈ l →
         (∃ n, cb = CbMessage n) ∨ (∃ w, cb = CbWait w) ∨ (∃ u, cb = CbUser u)) →
  flat_map (forwarded d false) l
  = replicate (length (filter (λ cb, is_transport_callback cb = true) l))
      ("message", d).
Proof.
  induction l as [|cb l IH]; intros Hl; [done|].
  rewrite filter_cons. simpl. rewrite IH.
  - destruct (Hl cb) as [[n ->]|[[w ->]|[u ->]]];
      [apply list_elem_of_here|..]; done.
  - intros cb' Hin. apply Hl. by apply list_elem_of_further.
Qed.

(** A text frame is handed to [eventEmitter] once for each [message]
    callback that a call of [connect] registered, and to nothing else.
    Every call of [connect] registers one more such callback (at once when
    no channel is held, and otherwise when it goes on after its [await]) and
    [disconnect] removes none, so after connecting again every frame is
    handed on once more than before. *)
Theorem text_frames_forwarded_per_connect (W : world) (s : string) :
  reachable W →
  emitted (onmessage W (DataText s))
  = (emitted W
     ++ replicate (transport_listeners W) ("message", DataText s))%list
  ∧ transport_listeners (connect W)
    = match ws (the_client W) with
      | Some _ => transport_listeners W
      | None => S (transport_listeners W)
      end
  ∧ (∀ W', connect_resume W = Some W' →
           transport_listeners W' = S (transport_listeners W))
  ∧ transport_listeners (disconnect W).1 = transport_listeners W.
Proof.
  intros HW. unfold transport_listeners. split; [|split; [|split]].
  - unfold onmessage. rewrite fold_call_back_emitted. simpl. f_equal.
    apply flat_map_forwarded. intros cb.
    by apply reachable_message_handlers.
  - destruct (connect_spec W) as (_ & _ & ->).
    rewrite filter_app, length_app.
    destruct (ws (the_client W)); simpl; lia.
  - intros W' Hr. destruct (connect_resume_spec W W' Hr) as (_ & _ & ->).
    rewrite filter_app, length_app. simpl. lia.
  - by destruct (disconnect_spec W) as (_ & _ & ->).
Qed.

End Forwarding.

Lemma text_frames_forwarded_per_connect_witness :
  emitted (onmessage (H := demo_runtime) demo_reconnected (DataText "hello"))
  = [("message", DataText "hello"); ("message", DataText "hello")].
Proof.
  refine (eq_trans
            (proj1 (text_frames_forwarded_per_connect (H := demo_runtime)
                      demo_reconnected "hello" _)) _).
  - exists "http://127.0.0.1:8188", "client-1", (Some "secret"),
           [EvConnect; EvDisconnect; EvConnect].
    vm_compute. reflexivity.
  - vm_compute. reflexivity.
Defined.

(** ** Promises *)

Section Promises.
Context `{Runtime}.

Lemma onMessage_resume_total (W : world) (i w : nat) (promptId : string)
    (r : fetch_reply) :
  inflight W !! i = Some w →
  promptId_of W w = Some promptId →
  ∃ W',
    onMessage_resume W i r = Some W'
    ∧ historyResult (the_client W')
      = match rest_result r with
        | Return historyRes => historyRes
        | Throw _ => historyResult (the_client W)
        end.
Proof.
  unfold onMessage_resume, promptId_of. intros -> Hp.
  destruct (calls W !! w) as [[fo pr [pid|] p]|]; simplify_eq/=.
  unfold getHistory. simpl.
  destruct (rest_result r) as [h|err]; simpl.
  - destruct (ws (the_client W)); eexists; split; done.
  - eexists; split; done.
Qed.

(** When the fetch of the history fails, or its body has an [error] entry,
    the promise of the waiting call is rejected with that error; its
    listener stays in the registry and [historyResult] keeps its value. *)
Theorem history_failure_rejects (W : world) (i w : nat) (promptId : string)
    (r : fetch_reply) (err : exn) :
  inflight W !! i = Some w →
  promptId_of W w = Some promptId →
  promise_of W w = Some Pending →
  rest_result r = Throw err →
  ∃ W',
    step W (EvHistoryReply i r) = Some W'
    ∧ promise_of W' w = Some (Rejected err)
    ∧ message_handlers W' = message_handlers W
    ∧ historyResult (the_client W') = historyResult (the_client W)
    ∧ inflight W' = delete i (inflight W).
Proof.
  intros Hi Hid Hp Hr.
  destruct (onMessage_resume_total W i w promptId r Hi Hid) as (W' & Hs & Hh).
  exists W'. split; [done|].
  destruct (onMessage_resume_inv W W' i r Hs)
    as (w' & pid & Hi' & _ & Hfl & _ & Hc & Hm).
  assert (w' = w) as -> by congruence.
  rewrite Hr in *. split; [|done].
  unfold promise_of in *. rewrite Hc, list_lookup_alter_eq.
  destruct (calls W !! w) as [k|]; simplify_eq/=.
  unfold call_settle. simpl. by rewrite Hp.
Qed.

End Promises.

Lemma history_failure_rejects_witness :
  ∃ W',
    step (H := demo_runtime) demo_world
      (EvHistoryReply 0 (ReplyFailure (FetchError "fetch failed"))) = Some W'
    ∧ promise_of W' 0 = Some (Rejected (FetchError "fetch failed"))
    ∧ message_handlers W' = [CbMessage 0; CbWait 0].
Proof.
  destruct (history_failure_rejects (H := demo_runtime) demo_world 0 0 "abc123"
              (ReplyFailure (FetchError "fetch failed"))
              (FetchError "fetch failed"))
    as (W' & Hs & Hp & Hm & _).
  - vm_compute. reflexivity.
  - vm_compute. reflexivity.
  - vm_compute. reflexivity.
  - vm_compute. reflexivity.
  - exists W'. split; [exact Hs|]. split; [exact Hp|].
    rewrite Hm. vm_compute. reflexivity.
Defined.

(** ** Listeners of [getResult] *)

Section Listeners.
Context `{Runtime}.

Lemma filter_eq_absent (cb : callback) (l : list callback) :
  cb ∉ l → filter (λ x, x = cb) l = [].
Proof.
  induction l as [|x l IH]; [done|]. rewrite not_elem_of_cons.
  intros [Hne Hl]. rewrite filter_cons, decide_False by congruence. auto.
Qed.

(** What one event does to the list of [message] listeners: nothing, or it
    removes every occurrence of one callback, or it appends one callback,
    and a listener of [getResult] is appended only for a call that had no
    job identifier before and has one afterwards. *)
Lemma step_handlers_shape (W W' : world) (e : event) :
  step W e = Some W' →
  message_handlers W' = message_handlers W
  ∨ (∃ cb, message_handlers W' = filter (λ x, x ≠ cb) (message_handlers W))
  ∨ (∃ cb, message_handlers W' = (message_handlers W ++ [cb])%list
           ∧ ∀ w, cb = CbWait w →
                  promptId_of W w = None ∧ is_Some (promptId_of W' w)).
Proof.
  intros Hs. destruct e as [| |name u|name cb|a p r|a|w r|d|i r|].
  - simpl in Hs. simplify_eq. destruct (connect_spec W) as (_ & _ & ->).
    destruct (ws (the_client W)); [left; by rewrite app_nil_r|].
    right; right. by exists (CbMessage (connects W)).
  - simpl in Hs. simplify_eq. left. apply disconnect_spec.
  - simpl in Hs. simplify_eq. unfold apply_handlers.
    destruct (ws_on _ _ _) as [h'|] eqn:Ho; [|by left].
    apply ws_on_message_handlers in Ho as [Ho|[_ Ho]].
    + by left.
    + right; right. exists (CbUser u). split; [done|]. intros w [=].
  - simpl in Hs. simplify_eq. unfold apply_handlers.
    destruct (ws_off _ _ _) as [h'|] eqn:Ho; [|by left].
    apply ws_off_message_handlers in Ho as [Ho|[_ Ho]].
    + by left.
    + right; left. by exists cb.
  - simpl in Hs. simplify_eq. left. unfold getHistory, message_handlers. simpl.
    by destruct (rest_result r).
  - left. by destruct (step_outside W W' _ Hs) as (_ & _ & ->).
  - simpl in Hs. apply getResult_resume_inv in Hs
      as (fo & pr & Hk & [(err & _ & ->)|(queue & pid & _ & _ & ->)]);
      [by left|].
    destruct (getResult_executor_spec
                (with_calls W
                   (<[w := Call fo pr (Some pid) Pending]> (calls W))) w)
      as (Hc & _ & _ & Hm).
    rewrite Hm. simpl. change (message_handlers (with_calls W ?cs))
      with (message_handlers W).
    destruct (ws (the_client W)); [|left; by rewrite app_nil_r].
    right; right. exists (CbWait w). split; [done|]. intros w' [= <-].
    unfold promptId_of. rewrite Hc, Hk. simpl. split; [done|].
    rewrite list_lookup_insert_eq by (by eapply lookup_lt_Some). by eexists.
  - simpl in Hs. simplify_eq. left. unfold onmessage, message_handlers.
    by rewrite fold_call_back_client.
  - simpl in Hs.
    destruct (onMessage_resume_inv W W' i r Hs)
      as (w & pid & _ & _ & _ & _ & _ & ->).
    destruct (rest_result r); [|by left].
    destruct (ws (the_client W)); [|by left].
    right; left. by eexists.
  - simpl in Hs. destruct (connect_resume_spec W W' Hs) as (_ & _ & ->).
    right; right. by exists (CbMessage (connects W)).
Qed.

Lemma step_one_listener (W W' : world) (e : event) :
  step W e = Some W' →
  (∀ w, (CbWait w ∈ message_handlers W → is_Some (promptId_of W w))
        ∧ (length (filter (λ x, x = CbWait w) (message_handlers W)) ≤ 1)%nat) →
  ∀ w, (CbWait w ∈ message_handlers W' → is_Some (promptId_of W' w))
       ∧ (length (filter (λ x, x = CbWait w) (message_handlers W')) ≤ 1)%nat.
Proof.
  intros Hs HI w. destruct (HI w) as [Hin Hlen].
  assert (Hkeep : CbWait w ∈ message_handlers W → is_Some (promptId_of W' w)).
  { intros Hw. destruct (Hin Hw) as [pid Hp]. exists pid.
    by eapply step_promptId. }
  destruct (step_handlers_shape W W' e Hs)
    as [->|[(cb & ->)|(cb & -> & Hcb)]].
  - done.
  - split.
    + intros Hw. apply list_elem_of_filter in Hw as [_ Hw]. auto.
    + destruct (decide (CbWait w = cb)) as [<-|Hne].
      * rewrite filter_eq_absent; [simpl; lia|].
        apply (filter_ne_keeps (CbWait w) (message_handlers W)).
      * by rewrite (proj2 (filter_ne_keeps cb (message_handlers W))).
  - split.
    + intros Hw. apply elem_of_app in Hw as [Hw|Hw]; [auto|].
      apply list_elem_of_singleton in Hw. symmetry in Hw.
      by destruct (Hcb w Hw).
    + rewrite filter_app, length_app, filter_cons, filter_nil.
      destruct (decide (cb = CbWait w)) as [Hw|Hne]; [|simpl; lia].
      destruct (Hcb w Hw) as [Hnone _].
      rewrite filter_eq_absent; [simpl; lia|].
      intros Hw'. destruct (Hin Hw') as [pid Hp]. congruence.
Qed.

(** A call of [getResult] has at most one listener in the registry. *)
Theorem at_most_one_listener (W : world) (w : nat) :
  reachable W →
  (length (filter (λ x, x = CbWait w) (message_handlers W)) ≤ 1)%nat.
Proof.
  intros (h & id & t & es & Hr).
  assert (Hgen : ∀ es W0 W1,
             run W0 es = Some W1 →
             (∀ w, (CbWait w ∈ message_handlers W0 → is_Some (promptId_of W0 w))
                   ∧ (length (filter (λ x, x = CbWait w) (message_handlers W0)) ≤ 1)%nat) →
             ∀ w, (CbWait w ∈ message_handlers W1 → is_Some (promptId_of W1 w))
                  ∧ (length (filter (λ x, x = CbWait w) (message_handlers W1)) ≤ 1)%nat).
  { clear. intros es. induction es as [|e es IH]; intros W0 W1 Hr HI; simpl in Hr.
    - by simplify_eq.
    - destruct (step W0 e) as [W2|] eqn:Hs; [|done].
      apply (IH W2 W1 Hr). by eapply step_one_listener. }
  destruct (Hgen es _ W Hr) with (w := w) as [Hin Hlen]; [|done].
  intros w'. split; [|simpl; lia]. intros Hw. by apply elem_of_nil in Hw.
Qed.

Lemma getResult_resume_attached (W : world) (a : getResult_call)
    (json : jobject) (promptId : string) (s : socket) :
  ws (the_client W) = Some s →
  assoc "error" json = None →
  js_index json "prompt_id" = JVal (JStr promptId) →
  ∃ W2,
    getResult_resume (getResult W a) (length (calls W)) (Reply json) = Some W2
    ∧ ws (the_client W2) = Some s
    ∧ message_handlers W2
      = (message_handlers W ++ [CbWait (length (calls W))])%list
    ∧ promptId_of W2 (length (calls W)) = Some promptId
    ∧ promise_of W2 (length (calls W)) = Some Pending.
Proof.
  intros Hws He Hid. unfold getResult_resume, getResult, queuePrompt.
  destruct (getResult_args a) as [fo pr]. simpl.
  rewrite list_lookup_middle by done.
  rewrite (proj2 (rest_result_Return (Reply json) json) (conj eq_refl He)).
  rewrite Hid. eexists. split; [done|].
  unfold getResult_executor, promptId_of, promise_of, message_handlers. simpl.
  rewrite Hws. simpl. rewrite Hws.
  rewrite list_lookup_insert_eq by (rewrite length_app; simpl; lia).
  done.
Qed.

(** The whole of [getResult] when all goes well.  With a channel held, a
    reply to the posted job that carries the job identifier, then a frame
    that reports that job complete, then a history body without an [error]
    entry: the promise resolves to the entry of that body under the job
    identifier, the body is stored in [historyResult], and the listener of
    the call is gone from the registry. *)
Theorem getResult_round_trip (W : world) (a : getResult_call)
    (queue historyRes : jobject) (promptId : string) (d : ws_data) :
  ws (the_client W) ≠ None →
  assoc "error" queue = None →
  js_index queue "prompt_id" = JVal (JStr promptId) →
  completion_event promptId d →
  assoc "error" historyRes = None →
  ∃ i W',
    run W [ EvGetResult a;
            EvQueueReply (length (calls W)) (Reply queue);
            EvFrame d;
            EvHistoryReply i (Reply historyRes) ] = Some W'
    ∧ promise_of W' (length (calls W))
      = Some (Resolved (js_index historyRes promptId))
    ∧ historyResult (the_client W') = historyRes
    ∧ (CbWait (length (calls W)) ∉ message_handlers W').
Proof.
  intros Hws Hq Hid Hd Hh. set (k := length (calls W)).
  destruct (ws (the_client W)) as [s|] eqn:Hs; [clear Hws|done].
  destruct (getResult_resume_attached W a queue promptId s Hs Hq Hid)
    as (W2 & Hr2 & Hws2 & Hm2 & Hp2 & Hpr2). fold k in Hr2, Hm2, Hp2, Hpr2.
  apply onMessage_completion in Hd.
  set (W3 := onmessage W2 d).
  assert (Hin3 : k ∈ inflight W3).
  { apply fold_call_back_inflight. right. split.
    - rewrite Hm2. apply elem_of_app. right. apply list_elem_of_here.
    - by exists promptId. }
  assert (Hp3 : promptId_of W3 k = Some promptId).
  { unfold W3, onmessage. by rewrite fold_call_back_promptId. }
  assert (Hpr3 : promise_of W3 k = Some Pending).
  { unfold W3, onmessage. by rewrite fold_call_back_promise, Hp2, Hd. }
  assert (Hws3 : ws (the_client W3) = Some s).
  { unfold W3, onmessage. by rewrite fold_call_back_client. }
  apply list_elem_of_lookup_1 in Hin3 as [i Hi].
  destruct (onMessage_resume_total W3 i k promptId (Reply historyRes) Hi Hp3)
    as (W4 & Hr4 & Hh4).
  exists i, W4. simpl. rewrite Hr2. fold W3. rewrite Hr4.
  split; [done|].
  destruct (onMessage_resume_inv W3 W4 i _ Hr4)
    as (w' & pid & Hi' & Hpid & _ & _ & Hc & Hm).
  assert (w' = k) as -> by congruence.
  assert (pid = promptId) as -> by congruence.
  rewrite (proj2 (rest_result_Return (Reply historyRes) historyRes)
             (conj eq_refl Hh)) in Hc, Hm, Hh4.
  split; [|split; [done|]].
  - unfold promise_of in *. rewrite Hc, list_lookup_alter_eq.
    destruct (calls W3 !! k) as [c|]; simplify_eq/=.
    unfold call_settle. simpl. by rewrite Hpr3.
  - rewrite Hm, Hws3. apply (filter_ne_keeps (CbWait k) (message_handlers W3)).
Qed.

End Listeners.

Lemma at_most_one_listener_witness :
  (length (filter (λ x, x = CbWait 0) (message_handlers demo_world)) ≤ 1)%nat
  ∧ filter (λ x, x = CbWait 0) (message_handlers demo_world) = [CbWait 0].
Proof.
  split; [|vm_compute; reflexivity].
  apply (at_most_one_listener (H := demo_runtime) demo_world 0).
  exists "http://127.0.0.1:8188", "client-1", (Some "secret"), demo_events.
  vm_compute. reflexivity.
Defined.

Lemma getResult_round_trip_witness :
  ∃ i W',
    run (H := demo_runtime) demo_connected
      [ EvGetResult (GetResultOld demo_prompt);
        EvQueueReply 0 (Reply [("prompt_id", JStr "abc123")]);
        EvFrame (DataText text_done);
        EvHistoryReply i (Reply demo_history) ] = Some W'
    ∧ promise_of W' 0 = Some (Resolved (js_index demo_history "abc123"))
    ∧ historyResult (the_client W') = demo_history
    ∧ (CbWait 0 ∉ message_handlers W').
Proof.
  apply (getResult_round_trip (H := demo_runtime) demo_connected
           (GetResultOld demo_prompt) [("prompt_id", JStr "abc123")]
           demo_history "abc123" (DataText text_done)).
  - vm_compute. discriminate.
  - vm_compute. reflexivity.
  - vm_compute. reflexivity.
  - apply onMessage_completion. vm_compute. reflexivity.
  - vm_compute. reflexivity.
Defined.

(** ** The artifact collector *)

Section CollectorProperties.
Context `{Runtime}.
Variable c : client.
Variable replies : nat → blob_reply.

Lemma own_NoDup {A : Type} (os : list (string * A)) (k : string) (v : A) :
  NoDup (map fst os) → (k, v) ∈ os → own k os = Some v.
Proof.
  induction os as [|[k' v'] os IH]; intros Hnd Hin.
  - by apply elem_of_nil in Hin.
  - simpl in *. apply NoDup_cons in Hnd as [Hk Hnd].
    apply elem_of_cons in Hin as [[= <- <-]|Hin].
    + by rewrite decide_True.
    + rewrite decide_False; [by apply IH|].
      intros ->. apply Hk. apply list_elem_of_fmap. by exists (k, v).
Qed.

Lemma own_set_new {A : Type} (k : string) (v : A) (o : list (string * A)) :
  k ∉ map fst o → own_set k v o = (o ++ [(k, v)])%list.
Proof.
  induction o as [|[k' v'] o IH]; intros Hk; [done|]. simpl in *.
  apply not_elem_of_cons in Hk as [Hne Hk].
  rewrite decide_False by done. by rewrite IH.
Qed.

Lemma own_set_keys {A : Type} (k x : string) (v : A) (o : list (string * A)) :
  x ∈ map fst (own_set k v o) → x = k ∨ x ∈ map fst o.
Proof.
  induction o as [|[k' v'] o IH]; simpl.
  - intros Hx. apply list_elem_of_singleton in Hx. by left.
  - destruct (decide (k' = k)) as [->|Hne]; simpl.
    + rewrite !elem_of_cons. tauto.
    + rewrite !elem_of_cons. intros [->|Hx]; [tauto|].
      destruct (IH Hx); tauto.
Qed.

Lemma fetch_images_ok (k : nat) (l : list ImageRef) :
  (∀ j, j < length l → ∃ b, replies (k + j) = BlobReply b) →
  fetch_images c replies k l
  = (map (image_request c) l, Return (containers replies k l)).
Proof.
  revert k. induction l as [|i l IH]; intros k Hr; [done|]. simpl.
  destruct (Hr 0) as [b Hb]; [simpl; lia|].
  rewrite Nat.add_0_r in Hb. rewrite Hb. rewrite IH; [done|].
  intros j Hj. destruct (Hr (S j)) as [b' Hb']; [simpl; lia|].
  exists b'. by rewrite <- Hb', Nat.add_succ_r.
Qed.

Lemma fetch_images_fail (k j : nat) (l : list ImageRef) (err : exn) :
  j < length l →
  (∀ j', j' < j → ∃ b, replies (k + j') = BlobReply b) →
  replies (k + j) = BlobFailure err →
  fetch_images c replies k l
  = (map (image_request c) (take (S j) l), Throw err).
Proof.
  revert k j. induction l as [|i l IH]; intros k j Hj Hr He;
    [simpl in Hj; lia|].
  destruct j as [|j].
  - simpl. rewrite Nat.add_0_r in He. by rewrite He.
  - simpl. destruct (Hr 0) as [b Hb]; [lia|].
    rewrite Nat.add_0_r in Hb. rewrite Hb.
    rewrite (IH (S k) j); [done|simpl in Hj; lia| |].
    + intros j' Hj'. destruct (Hr (S j')) as [b' Hb']; [lia|].
      exists b'. by rewrite <- Hb', Nat.add_succ_r.
    + by rewrite <- He, Nat.add_succ_r.
Qed.

Lemma all_images_cons (nodeId : string) (o : NodeOutput)
    (os : list (string * NodeOutput)) :
  all_images ((nodeId, o) :: os)
  = (default [] (images o) ++ all_images os)%list.
Proof. reflexivity. Qed.

Lemma collect_ok (os : list (string * NodeOutput)) :
  ∀ (rest : list (string * NodeOutput)) (k : nat) (acc : ImagesResponse),
    (∀ nodeId o, (nodeId, o) ∈ rest → own nodeId os = Some o) →
    NoDup (map fst rest) →
    ("__proto__" ∉ map fst rest) →
    (∀ nodeId, nodeId ∈ map fst rest → nodeId ∉ map fst acc) →
    (∀ j, j < length (all_images rest) → ∃ b, replies (k + j) = BlobReply b) →
    collect c replies os k (map fst rest) acc
    = (map (image_request c) (all_images rest),
       Return (acc ++ gathered replies k rest)%list).
Proof.
  induction rest as [|[nodeId o] rest IH]; intros k acc Hown Hnd Hp Hacc Hr.
  - simpl. by rewrite app_nil_r.
  - simpl in Hnd, Hp, Hacc. apply NoDup_cons in Hnd as [Hid Hnd].
    apply not_elem_of_cons in Hp as [Hne Hp].
    rewrite all_images_cons in *. simpl.
    rewrite (Hown nodeId o) by apply list_elem_of_here.
    assert (Hown' : ∀ n o', (n, o') ∈ rest → own n os = Some o').
    { intros n o' Hin. apply Hown. by apply list_elem_of_further. }
    destruct (images o) as [l|] eqn:Hl; simpl in *.
    + rewrite fetch_images_ok
        by (intros j Hj; apply Hr; rewrite length_app; lia).
      rewrite length_map.
      unfold object_set. rewrite decide_False by done.
      rewrite own_set_new by (apply Hacc, list_elem_of_here).
      rewrite (IH (k + length l) _ Hown' Hnd Hp).
      * by rewrite map_app, <- app_assoc.
      * intros n Hn. rewrite map_app. simpl.
        rewrite elem_of_app, list_elem_of_singleton.
        intros [Hin| ->]; [|done].
        revert Hin. apply Hacc. by apply list_elem_of_further.
      * intros j Hj. destruct (Hr (length l + j)) as [b Hb].
        { rewrite length_app. lia. }
        exists b. by rewrite <- Hb, Nat.add_assoc.
    + apply (IH k acc Hown' Hnd Hp).
      * intros n Hn. apply Hacc. by apply list_elem_of_further.
      * done.
Qed.

Lemma collect_fail (os : list (string * NodeOutput)) :
  ∀ (rest : list (string * NodeOutput)) (k j : nat) (acc : ImagesResponse)
    (err : exn),
    (∀ nodeId o, (nodeId, o) ∈ rest → own nodeId os = Some o) →
    j < length (all_images rest) →
    (∀ j', j' < j → ∃ b, replies (k + j') = BlobReply b) →
    replies (k + j) = BlobFailure err →
    collect c replies os k (map fst rest) acc
    = (map (image_request c) (take (S j) (all_images rest)), Throw err).
Proof.
  induction rest as [|[nodeId o] rest IH]; intros k j acc err Hown Hj Hr He.
  - simpl in Hj. lia.
  - rewrite all_images_cons in *. simpl.
    rewrite (Hown nodeId o) by apply list_elem_of_here.
    assert (Hown' : ∀ n o', (n, o') ∈ rest → own n os = Some o').
    { intros n o' Hin. apply Hown. by apply list_elem_of_further. }
    destruct (images o) as [l|] eqn:Hl; simpl in *.
    + destruct (decide (j < length l)) as [Hlt|Hge].
      * rewrite (fetch_images_fail k j l err Hlt Hr He).
        by rewrite take_app_le by lia.
      * rewrite fetch_images_ok by (intros j' Hj'; apply Hr; lia).
        rewrite length_map. rewrite length_app in Hj.
        rewrite (IH (k + length l) (j - length l) _ err Hown').
        -- rewrite <- map_app. f_equal. f_equal.
           rewrite take_app_ge by lia. f_equal. f_equal. lia.
        -- lia.
        -- intros j' Hj'. destruct (Hr (length l + j')) as [b Hb]; [lia|].
           exists b. by rewrite <- Hb, Nat.add_assoc.
        -- rewrite <- He. f_equal. lia.
    + by apply IH.
Qed.

Lemma containers_spec (k : nat) (l : list ImageRef) :
  map image (containers replies k l) = l
  ∧ map blob (containers replies k l)
    = map (λ n, blob_of (replies n)) (seq k (length l)).
Proof.
  revert k. induction l as [|i l IH]; intros k; [done|]. simpl.
  destruct (IH (S k)) as [-> ->]. done.
Qed.

Lemma gathered_spec (os : list (string * NodeOutput)) (k : nat) :
  map fst (gathered replies k os)
  = map fst (filter (λ o, has_images o = true) os)
  ∧ map (λ e, map image e.2) (gathered replies k os)
    = map node_images (filter (λ o, has_images o = true) os)
  ∧ map blob (concat (map snd (gathered replies k os)))
    = map (λ n, blob_of (replies n)) (seq k (length (all_images os))).
Proof.
  revert k. induction os as [|[nodeId o] os IH]; intros k; [done|].
  rewrite filter_cons, all_images_cons. unfold has_images, node_images.
  simpl. destruct (images o) as [l|] eqn:Hl; simpl.
  - destruct (IH (k + length l)) as (-> & -> & Hb).
    destruct (containers_spec k l) as [-> Hc].
    rewrite Hl. simpl. split; [done|]. split; [done|].
    by rewrite map_app, Hb, Hc, length_app, seq_app, map_app.
  - apply IH.
Qed.

(** When every fetch of an image succeeds, [getImages] asks for the images
    of the history record one by one, node after node, and resolves to one
    entry for each node that lists images, in the order of the nodes; the
    entry holds that node's images in their order, and the blob of the
    [k]-th image overall is the body of the [k]-th fetch.  A node without
    images gets no entry. *)
Theorem getImages_collects (h : PromptHistory) :
  NoDup (map fst (outputs h)) →
  ("__proto__" ∉ map fst (outputs h)) →
  (∀ k, k < length (all_images (outputs h)) → ∃ b, replies k = BlobReply b) →
  ∃ res,
    getImages c replies (Return (Some h))
    = (map (image_request c) (all_images (outputs h)), Return res)
    ∧ map fst res = map fst (filter (λ o, has_images o = true) (outputs h))
    ∧ map (λ e, map image e.2) res
      = map node_images (filter (λ o, has_images o = true) (outputs h))
    ∧ map blob (concat (map snd res))
      = map (λ k, blob_of (replies k))
          (seq 0 (length (all_images (outputs h)))).
Proof.
  intros Hnd Hp Hr. exists (gathered replies 0 (outputs h)).
  split; [|apply gathered_spec].
  unfold getImages. rewrite (collect_ok (outputs h)); try done.
  - intros nodeId o. by apply own_NoDup.
  - intros nodeId _ Hin. by apply elem_of_nil in Hin.
Qed.

(** The first fetch of an image that fails ends [getImages]: its promise
    is rejected with that failure, and no image after that one is asked
    for. *)
Theorem getImages_stops_at_first_failure (h : PromptHistory) (k : nat)
    (err : exn) :
  NoDup (map fst (outputs h)) →
  k < length (all_images (outputs h)) →
  (∀ j, j < k → ∃ b, replies j = BlobReply b) →
  replies k = BlobFailure err →
  getImages c replies (Return (Some h))
  = (map (image_request c) (take (S k) (all_images (outputs h))), Throw err).
Proof.
  intros Hnd Hk Hr He. unfold getImages.
  apply (collect_fail (outputs h)); try done.
  intros nodeId o. by apply own_NoDup.
Qed.

Lemma collect_no_proto (os : list (string * NodeOutput)) :
  ∀ (nodeIds : list string) (k : nat) (acc res : ImagesResponse)
    (rs : list request),
    ("__proto__" ∉ map fst acc) →
    collect c replies os k nodeIds acc = (rs, Return res) →
    "__proto__" ∉ map fst res.
Proof.
  induction nodeIds as [|nodeId nodeIds IH]; intros k acc res rs Hacc Hc;
    simpl in Hc.
  - by simplify_eq.
  - destruct (own nodeId os) as [o|]; [|done].
    destruct (images o) as [l|]; [|by eapply IH].
    destruct (fetch_images c replies k l) as [rs1 [cs|err]]; [|done].
    destruct (collect c replies os (k + length rs1) nodeIds
                (object_set nodeId cs acc)) as [rs2 r] eqn:Hc2.
    simplify_eq. eapply IH; [|done].
    unfold object_set. destruct (decide (nodeId = "__proto__")); [done|].
    intros Hin. apply own_set_keys in Hin as [Hin|Hin]; congruence.
Qed.

(** The result of [getImages] never has an entry called [__proto__]: the
    images of a node of that name are fetched and then lost. *)
Theorem getImages_never_returns_proto
    (history : result (option PromptHistory)) (rs : list request)
    (res : ImagesResponse) :
  getImages c replies history = (rs, Return res) →
  "__proto__" ∉ map fst res.
Proof.
  unfold getImages. destruct history as [[h|]|err]; try done.
  apply collect_no_proto. intros Hin. by apply elem_of_nil in Hin.
Qed.

End CollectorProperties.

Lemma getImages_collects_witness :
  ∃ res,
    getImages (H := demo_runtime) demo_client demo_replies
      (Return (Some demo_outputs))
    = (map (image_request (H := demo_runtime) demo_client)
         [demo_image "a.png"; demo_image "b.png"; demo_image "c.png"],
       Return res)
    ∧ map fst res = ["9"; "15"]
    ∧ map blob (concat (map snd res)) = [demo_blob 0; demo_blob 1; demo_blob 2].
Proof.
  destruct (getImages_collects (H := demo_runtime) demo_client demo_replies
              demo_outputs) as (res & Hg & Hk & _ & Hb).
  - apply (bool_decide_unpack _). vm_compute. exact I.
  - apply (bool_decide_unpack _). vm_compute. exact I.
  - intros k _. by eexists.
  - exists res. split; [exact Hg|]. split.
    + rewrite Hk. vm_compute. reflexivity.
    + rewrite Hb. vm_compute. reflexivity.
Defined.

Lemma getImages_stops_at_first_failure_witness :
  getImages (H := demo_runtime) demo_client demo_replies_failing
    (Return (Some demo_outputs))
  = (map (image_request (H := demo_runtime) demo_client)
       [demo_image "a.png"; demo_image "b.png"],
     Throw (FetchError "fetch failed")).
Proof.
  apply (getImages_stops_at_first_failure (H := demo_runtime) demo_client
           demo_replies_failing demo_outputs 1 (FetchError "fetch failed")).
  - apply (bool_decide_unpack _). vm_compute. exact I.
  - simpl. lia.
  - intros j Hj. exists (demo_blob 0). destruct j; [reflexivity|lia].
  - reflexivity.
Defined.

Lemma getImages_never_returns_proto_witness :
  getImages (H := demo_runtime) demo_client demo_replies
    (Return (Some demo_outputs_proto))
  = (map (image_request (H := demo_runtime) demo_client)
       [demo_image "a.png"; demo_image "b.png"],
     Return [("9", [{| blob := demo_blob 0; image := demo_image "a.png" |}])])
  ∧ ("__proto__"
     ∉ map fst
         [("9", [{| blob := demo_blob 0; image := demo_image "a.png" |}])]).
Proof.
  assert (Hg : getImages (H := demo_runtime) demo_client demo_replies
                 (Return (Some demo_outputs_proto))
               = (map (image_request (H := demo_runtime) demo_client)
                    [demo_image "a.png"; demo_image "b.png"],
                  Return [("9", [{| blob := demo_blob 0;
                                    image := demo_image "a.png" |}])])).
  { vm_compute. reflexivity. }
  split; [exact Hg|].
  exact (getImages_never_returns_proto (H := demo_runtime) demo_client
           demo_replies _ _ _ Hg).
Defined.

(** ** A job that is not accepted *)

Section Refusal.
Context `{Runtime}.

(** When posting the job fails, or the reply has an [error] entry, the
    promise of [getResult] is rejected with that error: the call gets no
    job identifier and no listener, and asks for no history. *)
Theorem getResult_rejects_when_posting_fails (W : world) (a : getResult_call)
    (r : fetch_reply) (err : exn) :
  rest_result r = Throw err →
  ∃ W',
    run W [EvGetResult a; EvQueueReply (length (calls W)) r] = Some W'
    ∧ promise_of W' (length (calls W)) = Some (Rejected err)
    ∧ promptId_of W' (length (calls W)) = None
    ∧ message_handlers W' = message_handlers W
    ∧ inflight W' = inflight W
    ∧ requests W'
      = (requests W
         ++ [(queuePrompt (the_client W) (getResult_args a).2).1])%list.
Proof.
  intros Hr. simpl. unfold getResult_resume, getResult, queuePrompt.
  destruct (getResult_args a) as [fo pr]. simpl.
  rewrite list_lookup_middle by done. rewrite Hr.
  eexists. split; [done|].
  unfold promise_of, promptId_of, settle_call. simpl.
  rewrite list_lookup_alter_eq, list_lookup_middle by done.
  done.
Qed.

End Refusal.

Lemma getResult_rejects_when_posting_fails_witness :
  ∃ W',
    run (H := demo_runtime) demo_connected
      [ EvGetResult (GetResultOld demo_prompt);
        EvQueueReply 0 (ReplyFailure (FetchError "fetch failed")) ] = Some W'
    ∧ promise_of W' 0 = Some (Rejected (FetchError "fetch failed"))
    ∧ message_handlers W' = [CbMessage 0].
Proof.
  destruct (getResult_rejects_when_posting_fails (H := demo_runtime)
              demo_connected (GetResultOld demo_prompt)
              (ReplyFailure (FetchError "fetch failed"))
              (FetchError "fetch failed"))
    as (W' & Hs & Hp & _ & Hm & _).
  - reflexivity.
  - exists W'. split; [exact Hs|]. split; [exact Hp|].
    rewrite Hm. vm_compute. reflexivity.
Defined.

(** ** The revision without a token *)

(** The older revision of part_000 never sends an [Authorization] header,
    and it is the client of client.ts for a session without a token: the
    target of [connect] is the same, and every REST method hands [fetch] the
    same request, but that [getHistory] and [getQueue], called without a
    request override, leave the method to [fetch] where client.ts passes
    ['get']. *)
Theorem old_revision_is_the_tokenless_client `{Runtime} (c : client)
    (r : rest_call) :
  header_get "Authorization" (req_headers (Part000Old.request_of c r)) = None
  ∧ (truthy_string (token c) = false →
     Part000Old.connect_url c = connect_url c
     ∧ match r with
       | GetHistory (HOption _) _ | GetHistory _ (Some _)
       | GetQueue (Some _) => True
       | GetHistory _ None | GetQueue None =>
           req_url (Part000Old.request_of c r) = req_url (request_of c r)
           ∧ req_headers (Part000Old.request_of c r)
             = req_headers (request_of c r)
           ∧ req_body (Part000Old.request_of c r) = req_body (request_of c r)
           ∧ req_method (Part000Old.request_of c r) = None
           ∧ req_method (request_of c r) = Some "get"
       | _ => Part000Old.request_of c r = request_of c r
       end).
Proof.
  split.
  - by destruct r.
  - intros Ht. split.
    + unfold connect_url, Part000Old.connect_url. rewrite Ht.
      by rewrite append_empty_r.
    + pose proof (getRequestHeaders_anonymous c Ht) as Hh.
      destruct r as [| | | | | | | | | | | |a [p|]|[fo|]|]; simpl;
        unfold getUrl; rewrite ?Hh; simpl;
        rewrite ?append_empty_r, ?append_assoc; try done.
      all: destruct a as [|s|fo]; simpl; done.
Qed.

Lemma old_revision_is_the_tokenless_client_witness :
  Part000Old.connect_url demo_anonymous
  = connect_url demo_anonymous
  ∧ Part000Old.request_of (H := demo_runtime) demo_anonymous
      (GetImage "a.png" "" "output")
    = request_of (H := demo_runtime) demo_anonymous
        (GetImage "a.png" "" "output").
Proof.
  exact (proj2 (old_revision_is_the_tokenless_client (H := demo_runtime)
                  demo_anonymous (GetImage "a.png" "" "output")) eq_refl).
Defined.

(** * Frames and the listener of [getResult] *)

(** ** Frames by what they carry *)

Section Payloads.
Context `{Runtime}.

(** C4.  What the client does with a frame goes by [event.data instanceof
    Blob], not by the kind of the frame.  A binary frame that comes as a
    [Blob] leaves a reachable world exactly as it was: nothing is forwarded,
    nothing is decoded, no promise is rejected and no history is asked for.
    A text frame is forwarded as it came, undecoded, as one ["message"] event
    per transport callback.  A binary frame that comes as an [ArrayBuffer]
    is taken for text: it is forwarded in the same way, and a waiting
    listener of [getResult] decodes the text of its conversion to a string
    and rejects its promise when that fails. *)
Theorem binary_frame_is_dropped_only_as_blob (W : world) :
  reachable W →
  (∀ b, step W (EvFrame (DataBlob b)) = Some W)
  ∧ (∀ s, emitted <$> step W (EvFrame (DataText s))
          = Some (emitted W
                  ++ replicate (transport_listeners W)
                       ("message", DataText s))%list)
  ∧ (∀ b, emitted <$> step W (EvFrame (DataArrayBuffer b))
          = Some (emitted W
                  ++ replicate (transport_listeners W)
                       ("message", DataArrayBuffer b))%list)
  ∧ (∀ b w promptId err,
       promptId_of W w = Some promptId →
       promise_of W w = Some Pending →
       CbWait w ∈ message_handlers W →
       JSON_parse "[object ArrayBuffer]" = Throw err →
       (step W (EvFrame (DataArrayBuffer b)) ≫= λ W', promise_of W' w)
       = Some (Rejected err)).
Proof.
  intros Hreach.
  assert (Hshape : ∀ cb, cb ∈ message_handlers W →
             (∃ n, cb = CbMessage n) ∨ (∃ w, cb = CbWait w)
             ∨ (∃ u, cb = CbUser u))
    by (intros cb; by apply reachable_message_handlers).
  split; [|split; [|split]].
  - intros b. simpl. f_equal. unfold onmessage. simpl.
    by apply fold_call_back_binary.
  - intros s. simpl. f_equal. unfold onmessage, transport_listeners.
    rewrite fold_call_back_emitted. simpl. f_equal.
    by apply flat_map_forwarded.
  - intros b. simpl. f_equal. unfold onmessage, transport_listeners.
    rewrite fold_call_back_emitted. simpl. f_equal.
    by apply flat_map_forwarded.
  - intros b w pid err Hpid Hp Hin Herr. simpl. unfold onmessage.
    rewrite fold_call_back_promise, Hpid. cbn [is_blob].
    assert (Hv : onMessage pid (DataArrayBuffer b) false = RejectWith err).
    { unfold onMessage, onMessage_try. simpl. by rewrite Herr. }
    rewrite Hv, decide_True by done. by rewrite Hp.
Qed.

End Payloads.

(** ** The listener after the promise resolves *)

Section Detachment.
Context `{Runtime}.

Lemma call_back_requests (d : ws_data) (b : bool) (W : world) (cb : callback) :
  ∃ rs,
    requests (call_back d b W cb) = (requests W ++ rs)%list
    ∧ ∀ w promptId,
        cb = CbWait w → promptId_of W w = Some promptId →
        onMessage promptId d b = AwaitHistory → rs ≠ [].
Proof.
  destruct cb as [n|n|n|n|w|u];
    try (exists []; simpl; rewrite app_nil_r; split; [done|]; by intros ?? ?).
  simpl. unfold promptId_of.
  destruct (calls W !! w) as [[fo pr [pid|] p]|] eqn:Hk.
  - destruct (onMessage pid d b) eqn:Hv.
    + exists []. rewrite app_nil_r. split; [done|].
      intros w' pid' [= <-]. rewrite Hk. simpl. intros [= <-]. congruence.
    + exists []. rewrite app_nil_r. split; [done|].
      intros w' pid' [= <-]. rewrite Hk. simpl. intros [= <-]. congruence.
    + eexists [_]. split; [done|]. done.
  - exists []. rewrite app_nil_r. split; [done|].
    intros w' pid' [= <-]. by rewrite Hk.
  - exists []. rewrite app_nil_r. split; [done|].
    intros w' pid' [= <-]. by rewrite Hk.
Qed.

Lemma fold_call_back_requests (d : ws_data) (b : bool) (l : list callback)
    (W : world) :
  ∃ rs,
    requests (fold_left (call_back d b) l W) = (requests W ++ rs)%list
    ∧ ∀ w promptId,
        CbWait w ∈ l → promptId_of W w = Some promptId →
        onMessage promptId d b = AwaitHistory → rs ≠ [].
Proof.
  revert W. induction l as [|cb l IH]; intros W; simpl.
  - exists []. rewrite app_nil_r. split; [done|].
    intros w pid Hin. by apply elem_of_nil in Hin.
  - destruct (call_back_requests d b W cb) as (rs1 & Hr1 & Hn1).
    destruct (IH (call_back d b W cb)) as (rs2 & Hr2 & Hn2).
    exists (rs1 ++ rs2)%list. split; [by rewrite Hr2, Hr1, app_assoc|].
    intros w pid Hin Hp Hv. apply elem_of_cons in Hin as [<-|Hin].
    + specialize (Hn1 w pid eq_refl Hp Hv). by destruct rs1.
    + rewrite <- (call_back_promptId d b W cb w) in Hp.
      specialize (Hn2 w pid Hin Hp Hv). destruct rs2; [done|].
      by destruct rs1.
Qed.

(** C2.  When the reply to the fetch of the history arrives while the client
    holds no channel, the promise of the waiting call resolves and its
    listener stays in the registry, where [this.ws?.off] was to remove it:
    the next frame that reports the job complete runs the listener again,
    and it asks for the history once more. *)
Theorem listener_outlives_resolution_without_channel (W : world) (i w : nat)
    (promptId : string) (r : fetch_reply) (historyRes : jobject) :
  inflight W !! i = Some w →
  promptId_of W w = Some promptId →
  promise_of W w = Some Pending →
  CbWait w ∈ message_handlers W →
  ws (the_client W) = None →
  rest_result r = Return historyRes →
  ∃ W',
    step W (EvHistoryReply i r) = Some W'
    ∧ promise_of W' w = Some (Resolved (js_index historyRes promptId))
    ∧ CbWait w ∈ message_handlers W'
    ∧ ∀ d, completion_event promptId d →
           w ∈ inflight (onmessage W' d)
           ∧ (length (requests W') < length (requests (onmessage W' d)))%nat.
Proof.
  intros Hi Hpid Hp Hin Hws Hr.
  destruct (onMessage_resume_total W i w promptId r Hi Hpid) as (W' & Hs & _).
  exists W'. split; [done|].
  destruct (onMessage_resume_inv W W' i r Hs)
    as (w' & pid & Hi' & Hpid' & _ & _ & Hc & Hm).
  assert (w' = w) as -> by congruence.
  assert (pid = promptId) as -> by congruence.
  rewrite Hr in Hc. rewrite Hr, Hws in Hm.
  assert (Hpid1 : promptId_of W' w = Some promptId).
  { by apply (step_promptId W W' (EvHistoryReply i r)). }
  split; [|split; [by rewrite Hm|]].
  - unfold promise_of in *. rewrite Hc, list_lookup_alter_eq.
    destruct (calls W !! w) as [k|]; simplify_eq/=.
    unfold call_settle. simpl. by rewrite Hp.
  - intros d Hd. apply onMessage_completion in Hd. split.
    + apply fold_call_back_inflight. right. split; [by rewrite Hm|].
      by exists promptId.
    + unfold onmessage.
      destruct (fold_call_back_requests d (is_blob d) (message_handlers W') W')
        as (rs & -> & Hne).
      rewrite length_app. rewrite Hm in Hne.
      specialize (Hne w promptId Hin Hpid1 Hd). destruct rs; [done|].
      simpl. lia.
Qed.

(** When the client holds a channel at the event that resolves the promise
    of call [w], the listener of [w] is taken out of the registry by that
    event and never returns to it, whatever happens afterwards. *)
Theorem resolved_listener_is_detached_for_good (W W1 W2 : world) (e : event)
    (es : list event) (w : nat) (v : jsval) :
  step W e = Some W1 →
  promise_of W w ≠ Some (Resolved v) →
  promise_of W1 w = Some (Resolved v) →
  ws (the_client W) ≠ None →
  run W1 es = Some W2 →
  (CbWait w ∉ message_handlers W1) ∧ (CbWait w ∉ message_handlers W2).
Proof.
  intros Hs Hbefore Hafter Hws Hr.
  destruct (step_promise W W1 e w _ Hs Hafter)
    as [?|[(_ & ? & _)|(_ & [Hq|[Hq|Hq]])]]; [done..| | |].
  - by destruct Hq as (? & ? & _ & _ & _ & ?).
  - by destruct Hq as (? & ? & ? & _ & _ & _ & _ & ?).
  - destruct Hq as (i & r & pid & _ & _ & Hpid & [(? & _ & ?)|(h & _ & _ & Hout)]);
      [done|].
    specialize (Hout Hws). split; [done|].
    eapply run_listener_out; [done| |done]. by eapply step_promptId.
Qed.

End Detachment.

(** ** A call without a channel *)

Section Unattached.
Context `{Runtime}.

Lemma run_app (W : world) (es1 es2 : list event) :
  run W (es1 ++ es2) = run W es1 ≫= λ W1, run W1 es2.
Proof.
  revert W. induction es1 as [|e es1 IH]; intros W; simpl; [done|].
  destruct (step W e) as [W1|]; [apply IH|done].
Qed.

Lemma reachable_run (W W' : world) (es : list event) :
  reachable W → run W es = Some W' → reachable W'.
Proof.
  intros (h & id & t & es0 & Hr0) Hr. exists h, id, t, (es0 ++ es)%list.
  by rewrite run_app, Hr0.
Qed.

(** A registered listener and a fetch in flight belong to a call whose job
    identifier is known. *)
Lemma step_attached (W W' : world) (e : event) :
  step W e = Some W' →
  (∀ w, CbWait w ∈ message_handlers W ∨ w ∈ inflight W →
        is_Some (promptId_of W w)) →
  ∀ w, CbWait w ∈ message_handlers W' ∨ w ∈ inflight W' →
       is_Some (promptId_of W' w).
Proof.
  intros Hs HJ w.
  assert (Hkeep : is_Some (promptId_of W w) → is_Some (promptId_of W' w)).
  { intros [pid Hp]. exists pid. by eapply step_promptId. }
  intros [Hin|Hin].
  - destruct (step_handlers_shape W W' e Hs)
      as [Hm|[(cb & Hm)|(cb & Hm & Hcb)]]; rewrite Hm in Hin.
    + auto.
    + apply list_elem_of_filter in Hin as [_ Hin]. auto.
    + apply elem_of_app in Hin as [Hin|Hin]; [auto|].
      apply list_elem_of_singleton in Hin. symmetry in Hin.
      by destruct (Hcb w Hin).
  - apply (step_inflight W W' e w Hs) in Hin as [Hin|(d & pid & _ & Hin & _)];
      auto.
Qed.

Lemma reachable_attached (W : world) (w : nat) :
  reachable W →
  CbWait w ∈ message_handlers W ∨ w ∈ inflight W → is_Some (promptId_of W w).
Proof.
  intros (h & id & t & es & Hr). revert w.
  assert (Hgen : ∀ es W0 W1,
             run W0 es = Some W1 →
             (∀ w, CbWait w ∈ message_handlers W0 ∨ w ∈ inflight W0 →
                   is_Some (promptId_of W0 w)) →
             ∀ w, CbWait w ∈ message_handlers W1 ∨ w ∈ inflight W1 →
                  is_Some (promptId_of W1 w)).
  { clear. intros es. induction es as [|e es IH]; intros W0 W1 Hr HJ;
      simpl in Hr.
    - by simplify_eq.
    - destruct (step W0 e) as [W2|] eqn:Hs; [|done].
      apply (IH W2 W1 Hr). by eapply step_attached. }
  apply (Hgen es _ W Hr). intros w [Hin|Hin]; simpl in Hin;
    by apply elem_of_nil in Hin.
Qed.

(** C10, as the code has it.  Called with no channel held, [getResult] still
    posts the job.  Whatever happens before the reply to it arrives: when
    the reply brings the job identifier and the client holds no channel at
    that moment, attaching the listener does nothing to the client, and the
    promise stays pending whatever happens afterwards; when [queuePrompt]
    raises instead, the promise is rejected with what it raised. *)
Theorem getResult_without_channel (W : world) (a : getResult_call) :
  reachable W →
  ws (the_client W) = None →
  requests (getResult W a)
  = (requests W ++ [(queuePrompt (the_client W) (getResult_args a).2).1])%list
  ∧ ∀ es0 W1,
      run (getResult W a) es0 = Some W1 →
      promptId_of W1 (length (calls W)) = None →
      promise_of W1 (length (calls W)) = Some Pending →
      (∀ json promptId,
         ws (the_client W1) = None →
         assoc "error" json = None →
         js_index json "prompt_id" = JVal (JStr promptId) →
         ∃ W2,
           step W1 (EvQueueReply (length (calls W)) (Reply json)) = Some W2
           ∧ the_client W2 = the_client W1
           ∧ ∀ es W', run W2 es = Some W' →
                      promise_of W' (length (calls W)) = Some Pending)
      ∧ (∀ r err,
           rest_result r = Throw err →
           ∃ W2,
             step W1 (EvQueueReply (length (calls W)) r) = Some W2
             ∧ promise_of W2 (length (calls W)) = Some (Rejected err)).
Proof.
  intros Hreach Hws. split.
  { unfold getResult. by destruct (getResult_args a). }
  intros es0 W1 Hr0 Hnone Hpend. set (k := length (calls W)) in *.
  assert (Hreach1 : reachable W1).
  { apply (reachable_run W W1 (EvGetResult a :: es0) Hreach). done. }
  assert (Hk : ∃ fo pr, calls W1 !! k = Some (Call fo pr None Pending)).
  { unfold promptId_of, promise_of in *.
    destruct (calls W1 !! k) as [[fo pr pid p]|]; simplify_eq/=.
    by exists fo, pr. }
  destruct Hk as (fo & pr & Hk). split.
  - intros json pid Hws1 He Hid. simpl.
    unfold getResult_resume, queuePrompt. rewrite Hk. simpl.
    rewrite (proj2 (rest_result_Return (Reply json) json) (conj eq_refl He)).
    rewrite Hid. eexists. split; [done|].
    unfold getResult_executor. simpl. rewrite Hws1. split; [done|].
    intros es W' Hr.
    eapply (run_unattached_pending _ W' es k pid Hr).
    + unfold promptId_of. simpl.
      rewrite list_lookup_insert_eq by (by eapply lookup_lt_Some). done.
    + intros Hin.
      destruct (reachable_attached W1 k Hreach1 (or_introl Hin)). congruence.
    + intros Hin.
      destruct (reachable_attached W1 k Hreach1 (or_intror Hin)). congruence.
    + unfold promise_of. simpl.
      rewrite list_lookup_insert_eq by (by eapply lookup_lt_Some). done.
  - intros r err Hr. simpl. unfold getResult_resume, queuePrompt.
    rewrite Hk. simpl. rewrite Hr. eexists. split; [done|].
    rewrite promise_of_settle_call, decide_True by done.
    unfold promise_of. by rewrite Hk.
Qed.

End Unattached.

Lemma binary_frame_is_dropped_only_as_blob_witness :
  (step (H := demo_runtime) demo_listening
     (EvFrame (DataArrayBuffer [Byte.x89; Byte.x50]))
   ≫= λ W', Some (emitted W', promise_of W' 0))
  = Some ([("message", DataArrayBuffer [Byte.x89; Byte.x50])],
          Some (Rejected (SyntaxError "Unexpected token"))).
Proof.
  destruct (binary_frame_is_dropped_only_as_blob (H := demo_runtime)
              demo_listening) as (_ & _ & Hfw & Hrej).
  - exists "http://127.0.0.1:8188", "client-1", (Some "secret"),
           (take 3 demo_events).
    vm_compute. reflexivity.
  - pose proof (Hfw [Byte.x89; Byte.x50]) as Hf.
    pose proof (Hrej [Byte.x89; Byte.x50] 0 "abc123"
                  (SyntaxError "Unexpected token") eq_refl eq_refl) as Hr.
    destruct (step (H := demo_runtime) demo_listening
                (EvFrame (DataArrayBuffer [Byte.x89; Byte.x50]))) as [W'|];
      simpl in *; [|discriminate Hf].
    injection Hf as Hf. rewrite Hf, Hr.
    + vm_compute. reflexivity.
    + vm_compute. repeat constructor.
    + reflexivity.
Defined.

Lemma listener_outlives_resolution_without_channel_witness :
  ∃ W',
    step (H := demo_runtime) demo_raced (EvHistoryReply 0 (Reply demo_history))
    = Some W'
    ∧ promise_of W' 0 = Some (Resolved (js_index demo_history "abc123"))
    ∧ CbWait 0 ∈ message_handlers W'
    ∧ (length (requests W')
       < length (requests (onmessage (H := demo_runtime) W'
                             (DataText text_done))))%nat.
Proof.
  destruct (listener_outlives_resolution_without_channel (H := demo_runtime)
              demo_raced 0 0 "abc123" (Reply demo_history) demo_history)
    as (W' & Hs & Hp & Hin & Hagain).
  - vm_compute. reflexivity.
  - vm_compute. reflexivity.
  - vm_compute. reflexivity.
  - vm_compute. repeat constructor.
  - vm_compute. reflexivity.
  - vm_compute. reflexivity.
  - exists W'. split; [exact Hs|]. split; [exact Hp|]. split; [exact Hin|].
    apply Hagain. apply onMessage_completion. vm_compute. reflexivity.
Defined.

Lemma resolved_listener_is_detached_for_good_witness :
  step (H := demo_runtime) demo_world (EvHistoryReply 0 (Reply demo_history))
  = Some demo_resolved
  ∧ run (H := demo_runtime) demo_resolved demo_afterwards = Some demo_later
  ∧ (CbWait 0 ∉ message_handlers demo_resolved)
  ∧ (CbWait 0 ∉ message_handlers demo_later).
Proof.
  assert (Hs : step (H := demo_runtime) demo_world
                 (EvHistoryReply 0 (Reply demo_history)) = Some demo_resolved)
    by (vm_compute; reflexivity).
  assert (Hr : run (H := demo_runtime) demo_resolved demo_afterwards
               = Some demo_later)
    by (vm_compute; reflexivity).
  split; [exact Hs|]. split; [exact Hr|].
  apply (resolved_listener_is_detached_for_good (H := demo_runtime)
           demo_world demo_resolved demo_later
           (EvHistoryReply 0 (Reply demo_history)) demo_afterwards
           0 (JVal (JObj [("outputs", JObj [])])) Hs).
  - vm_compute. discriminate.
  - vm_compute. reflexivity.
  - vm_compute. discriminate.
  - exact Hr.
Defined.

Lemma getResult_without_channel_witness :
  ∃ W2,
    step (H := demo_runtime) demo_unanswered
      (EvQueueReply 0 (Reply [("prompt_id", JStr "abc123")])) = Some W2
    ∧ the_client W2 = the_client demo_unanswered
    ∧ ∀ es W', run (H := demo_runtime) W2 es = Some W' →
               promise_of W' 0 = Some Pending.
Proof.
  refine (proj1 (proj2 (getResult_without_channel (H := demo_runtime)
                          (new_world demo_client) (GetResultOld demo_prompt)
                          (ex_intro _ _ (ex_intro _ _ (ex_intro _ _
                             (ex_intro _ [] eq_refl))))
                          eq_refl)
                   [EvGetResult (GetResultOld demo_prompt); EvDisconnect] demo_unanswered _ _ _)
            [("prompt_id", JStr "abc123")] "abc123" _ _ _);
    vm_compute; reflexivity.
Defined.
